(** * USCIS case tracker (uscis-tracker.user.js, version 0.5)

    A shallow embedding of the snapshot history store, the case reconciler
    and the diff engine of the user script, and the properties of the
    design document that they satisfy or miss.

    Modelling conventions.

    - Scalars read from JSON payloads are [jsprim] values: [undefined] (also
      what reading a missing property gives), [null], booleans and strings.
      Numbers and object-valued scalars are left out: the fields the script
      compares are strings in every payload of the service.
    - A cases object is a [gmap string CaseRecord]; its keys are case numbers
      ([IOE] followed by digits), so no key collides with a property that a
      JavaScript object inherits from its prototype.
    - An exception is a [Throw] in the [result] monad.
    - [localStorage] is a finite map from keys to texts.  [JSON.parse] and
      [JSON.stringify] are builtins: a text is represented by what
      [JSON.parse] makes of it.
    - The clock ([new Date().toISOString()]) is an explicit argument.
    - [new Date(v)] on a scalar is a builtin whose result depends on the
      engine for texts outside the ISO format; it is a parameter of the
      reconciler section. *)

From Stdlib Require Import ZArith Lia Ascii.
From stdpp Require Import base option list gmap sets strings sorting pretty.

Local Open Scope string_scope.
Local Open Scope nat_scope.
Set Warnings "-clear-no-such-hyp".

(** ** Scalars *)

Inductive jsprim :=
| JUndefined
| JNull
| JBool (b : bool)
| JString (s : string).

Global Instance jsprim_eq_dec : EqDecision jsprim.
Proof. solve_decision. Defined.

(** [`${v}`]: the conversion to string of a template literal. *)
Definition template (v : jsprim) : string :=
  match v with
  | JUndefined => "undefined"
  | JNull => "null"
  | JBool true => "true"
  | JBool false => "false"
  | JString s => s
  end.

(** [a !== b] on scalars: no conversion, exact equality of the values. *)
Definition strict_neq (a b : jsprim) : bool := bool_decide (a ≠ b).

(** An opaque JSON payload (the documents blob); numbers are kept as their
    literal text. *)
Unset Elimination Schemes.
Inductive json :=
| JsonNull
| JsonBool (b : bool)
| JsonNumber (literal : string)
| JsonString (s : string)
| JsonArray (items : list json)
| JsonObject (fields : list (string * json)).
Set Elimination Schemes.

(** ** Exceptions *)

Inductive error := TypeError | SyntaxError | NetworkError.

Inductive result (A : Type) :=
| Ok (a : A)
| Throw (e : error).
Arguments Ok {A} a.
Arguments Throw {A} e.

Global Instance result_ret : MRet result := @Ok.
Global Instance result_bind : MBind result := λ A B f m,
  match m with
  | Ok a => f a
  | Throw e => Throw e
  end.

(** Reading a property of [undefined] raises a [TypeError]. *)
Definition defined {A} (o : option A) : result A :=
  match o with
  | Some a => Ok a
  | None => Throw TypeError
  end.

(** ** Data model *)

Module Event.
Record t := mk {
  eventCode : jsprim;
  eventDesc : jsprim;
  updatedAtTimestamp : jsprim
}.
End Event.

Global Instance Event_eq_dec : EqDecision Event.t.
Proof. solve_decision. Defined.

(** [events] is [None] when the record carries no [events] property (a
    record read back from storage may lack it). *)
Record CaseRecord := {
  caseNumber : string;
  formType : jsprim;
  formName : jsprim;
  closed : jsprim;
  updatedAt : jsprim;
  updatedAtTimestamp : jsprim;
  currentActionCode : jsprim;
  currentActionDesc : jsprim;
  events : option (list Event.t);
  documents : json;
  lastFetched : jsprim
}.

(** One entry of [fieldHighlights]. *)
Record Highlight := {
  isNew : bool;
  updatedAtChanged : bool;
  newEventIndices : gset nat
}.

Definition set_isNew (b : bool) (h : Highlight) : Highlight :=
  {| isNew := b; updatedAtChanged := updatedAtChanged h;
     newEventIndices := newEventIndices h |}.

Definition set_updatedAtChanged (b : bool) (h : Highlight) : Highlight :=
  {| isNew := isNew h; updatedAtChanged := b;
     newEventIndices := newEventIndices h |}.

(** [h.newEventIndices.add(i)] *)
Definition add_newEventIndex (i : nat) (h : Highlight) : Highlight :=
  {| isNew := isNew h; updatedAtChanged := updatedAtChanged h;
     newEventIndices := {[ i ]} ∪ newEventIndices h |}.

(** ** Array.prototype.forEach

    [l.forEach((x, i) => ...)] with the state that the callback updates
    threaded through the calls. *)

Fixpoint forEach_from {A St : Type} (f : St → A → nat → St)
    (i : nat) (l : list A) (s : St) : St :=
  match l with
  | [] => s
  | x :: l' => forEach_from f (S i) l' (f s x i)
  end.

Definition forEach {A St : Type} (f : St → A → nat → St) (l : list A) (s : St) : St :=
  forEach_from f 0 l s.

(** [Object.keys(o)]: each key once.  The keys come in the order of the map;
    what [detectFieldHighlights] leaves under a key does not depend on the
    order in which the keys are visited (see [detect_Ok_known]). *)
Definition Object_keys {A : Type} (o : gmap string A) : list string :=
  (map_to_list o).*1.

(** ** Diff engine: detectFieldHighlights *)

(** [`${e.eventCode}_${e.updatedAtTimestamp}`] *)
Definition eventKey (e : Event.t) : string :=
  template (Event.eventCode e) +:+ "_" +:+ template (Event.updatedAtTimestamp e).

(** [x || []] on an events property. *)
Definition or_empty (evs : option (list Event.t)) : list Event.t := default [] evs.

(** The body of the callback of [Object.keys(newCases).forEach]: the entry
    that it leaves in [highlights[caseNum]]. *)
Definition highlightCase (oldCases newCases : gmap string CaseRecord)
    (caseNum : string) : result Highlight :=
  let h := {| isNew := false; updatedAtChanged := false; newEventIndices := ∅ |} in
  match oldCases !! caseNum with
  | None =>
      let h := set_isNew true h in
      let h := set_updatedAtChanged true h in
      newCase ← defined (newCases !! caseNum);
      evs ← defined (events newCase);
      Ok (forEach (λ h _ i, add_newEventIndex i h) evs h)
  | Some oldCase =>
      newCase ← defined (newCases !! caseNum);
      let h :=
        if strict_neq (updatedAtTimestamp oldCase) (updatedAtTimestamp newCase)
           || strict_neq (updatedAt oldCase) (updatedAt newCase)
        then set_updatedAtChanged true h else h in
      let oldEventKeys : gset string :=
        list_to_set (eventKey <$> or_empty (events oldCase)) in
      Ok (forEach (λ h event i,
                     let key := eventKey event in
                     if decide (key ∈ oldEventKeys) then h
                     else add_newEventIndex i h)
                  (or_empty (events newCase)) h)
  end.

Definition detectFieldHighlights (oldCases newCases : gmap string CaseRecord)
    : result (gmap string Highlight) :=
  forEach (λ highlights caseNum _,
             hs ← highlights;
             h ← highlightCase oldCases newCases caseNum;
             Ok (<[caseNum := h]> hs))
          (Object_keys newCases) (Ok ∅).

(** ** Case reconciler: getEventCodeDescription and fetchCaseData *)

(** [new Map(entries)]: the entries are set in order. *)
Definition Map_of_entries (entries : list (string * string)) : gmap string string :=
  foldl (λ m kv, <[kv.1 := kv.2]> m) ∅ entries.

Definition EVENT_CODES : gmap string string :=
  Map_of_entries [
    ("IAF", "Receipt letter emailed");
    ("FTA0", "Biometrics / database checks received");
    ("SA", "Status Adjusted");
    ("LDA", "Card Produced");
    ("H008", "Case Approved");
    ("H016", "Case Denied");
    ("IKA", "RFE issued")
  ].

(** [String.prototype.toUpperCase] on the ASCII letters; the other bytes are
    kept.  The two agree on every ASCII string ([is_ascii] below); on a text
    with other characters the builtin follows the Unicode case mappings,
    which are not modelled, and nothing is stated of the description that
    such a key resolves to. *)
Definition upper_ascii (c : Ascii.ascii) : Ascii.ascii :=
  let n := Ascii.nat_of_ascii c in
  if (97 <=? n)%nat && (n <=? 122)%nat then Ascii.ascii_of_nat (n - 32) else c.

Fixpoint toUpperCase (s : string) : string :=
  match s with
  | EmptyString => EmptyString
  | String c s' => String (upper_ascii c) (toUpperCase s')
  end.


(** [key.toUpperCase()] is a [TypeError] when [key] is not a string;
    [EVENT_CODES.get(k) ?? "Unknown"]. *)
Definition getEventCodeDescription (key : jsprim) : result string :=
  match key with
  | JString s =>
      let normalizedKey := toUpperCase s in
      Ok (default "Unknown" (EVENT_CODES !! normalizedKey))
  | _ => Throw TypeError
  end.

(** The raw payload of the case service. *)
Module RawEvent.
Record t := mk {
  eventCode : jsprim;
  updatedAtTimestamp : jsprim
}.
End RawEvent.

Module CaseInfo.
Record t := mk {
  formType : jsprim;
  formName : jsprim;
  closed : jsprim;
  updatedAt : jsprim;
  updatedAtTimestamp : jsprim;
  events : option (list RawEvent.t)
}.
(** [{}] *)
Definition empty : t :=
  mk JUndefined JUndefined JUndefined JUndefined JUndefined None.
End CaseInfo.

Module StatusData.
Record t := mk { data : option CaseInfo.t }.
End StatusData.

(** [Array.prototype.sort(comparefn)].  A comparator result of [None] is
    [NaN], which the sort reads as [+0].  The sort is stable (ECMAScript
    2019); for a comparator that is a consistent ordering the stable sorted
    arrangement is unique, and this insertion sort computes it.  For other
    comparators the order is implementation-defined and this is one of the
    permitted outcomes. *)
Definition SortCompare {A : Type} (comparefn : A → A → option Z) (x y : A) : Z :=
  default 0%Z (comparefn x y).

Fixpoint sorted_insert {A : Type} (comparefn : A → A → option Z) (x : A) (l : list A)
    : list A :=
  match l with
  | [] => [x]
  | y :: l' =>
      if bool_decide (0 < SortCompare comparefn x y)%Z
      then y :: sorted_insert comparefn x l'
      else x :: y :: l'
  end.

Definition Array_sort {A : Type} (comparefn : A → A → option Z) (l : list A) : list A :=
  foldr (sorted_insert comparefn) [] l.

(** [try { ... } catch (error) { return null; }] *)
Definition catch_null {A : Type} (r : result A) : option A :=
  match r with
  | Ok a => Some a
  | Throw _ => None
  end.

Section Reconciler.

(** The time value of [new Date(v)], [None] for an invalid date ([NaN]). *)
Variable Date_time : jsprim → option Z.

(** [(a, b) => new Date(b.updatedAtTimestamp) - new Date(a.updatedAtTimestamp)] *)
Definition compareEvents (a b : Event.t) : option Z :=
  tb ← Date_time (Event.updatedAtTimestamp b);
  ta ← Date_time (Event.updatedAtTimestamp a);
  Some (tb - ta)%Z.

(** The callback of [.map] in [fetchCaseData]. *)
Definition mapEvent (event : RawEvent.t) : result Event.t :=
  desc ← getEventCodeDescription (RawEvent.eventCode event);
  Ok (Event.mk (RawEvent.eventCode event) (JString desc)
               (RawEvent.updatedAtTimestamp event)).

(** [statusResponse] and [docResponse] are the outcomes of the two
    [await fetch(...)] / [await response.json()] pairs, [now] is the reading
    of the clock. *)
Definition fetchCaseData (caseNumber : string)
    (statusResponse : result StatusData.t) (docResponse : result json)
    (now : string) : option CaseRecord :=
  catch_null (
    statusData ← statusResponse;
    documentsData ← docResponse;
    let caseInfo := default CaseInfo.empty (StatusData.data statusData) in
    mapped ← mapM mapEvent (default [] (CaseInfo.events caseInfo));
    let sortedEvents := Array_sort compareEvents mapped in
    Ok {| caseNumber := caseNumber;
          formType := CaseInfo.formType caseInfo;
          formName := CaseInfo.formName caseInfo;
          closed := CaseInfo.closed caseInfo;
          updatedAt := CaseInfo.updatedAt caseInfo;
          updatedAtTimestamp := CaseInfo.updatedAtTimestamp caseInfo;
          currentActionCode :=
            from_option Event.eventCode JUndefined (head sortedEvents);
          currentActionDesc :=
            from_option Event.eventDesc JUndefined (head sortedEvents);
          events := Some sortedEvents;
          documents := documentsData;
          lastFetched := JString now |}).

End Reconciler.

(** ** History store *)

Definition STORAGE_KEY : string := "uscis_cases_data".
Definition HISTORY_KEY : string := "uscis_cases_history".

Module Snapshot.
Record t := mk {
  cases : gmap string CaseRecord;
  savedAt : jsprim
}.
End Snapshot.

(** The object under [STORAGE_KEY]; [cases] is [None] when the property is
    missing. *)
Module Latest.
Record t := mk {
  cases : option (gmap string CaseRecord);
  lastFetch : jsprim
}.
End Latest.

(** What [JSON.parse] gives for a stored text: the two values that the
    script serializes, an array of snapshots and a [{cases, lastFetch}]
    object, and [null].  A stored number or boolean has none of the
    properties that the script reads and behaves as the object without
    properties.  Strings, arrays whose elements are not snapshots and
    objects with a [length] property are not represented. *)
Inductive jsonv :=
| JArray (entries : list Snapshot.t)
| JObject (o : Latest.t)
| JNullValue.

(** A stored text: the empty string, a non-empty text that [JSON.parse]
    rejects, or the serialization of a value. *)
Inductive text :=
| EmptyText
| Unparseable
| Stringified (v : jsonv).

(** Computations over [localStorage] that may raise: the storage is threaded
    through, and an exception keeps the writes made before it. *)
Definition M (A : Type) : Type := gmap string text → result A * gmap string text.

Global Instance M_ret : MRet M := λ A a st, (Ok a, st).
Global Instance M_bind : MBind M := λ A B f m st,
  match m st with
  | (Ok a, st') => f a st'
  | (Throw e, st') => (Throw e, st')
  end.

Definition throw {A : Type} (e : error) : M A := λ st, (Throw e, st).

Definition localStorage_getItem (key : string) : M (option text) :=
  λ st, (Ok (st !! key), st).
(** The storage is taken to have room for what is written: the
    [QuotaExceededError] of a full storage is not modelled.  What is stated
    of a write is stated of a write that fits. *)
Definition localStorage_setItem (key : string) (value : text) : M unit :=
  λ st, (Ok (), <[key := value]> st).
Definition localStorage_removeItem (key : string) : M unit :=
  λ st, (Ok (), delete key st).

Definition JSON_parse (t : text) : M jsonv :=
  match t with
  | Stringified v => mret v
  | EmptyText | Unparseable => throw SyntaxError
  end.
Definition JSON_stringify (v : jsonv) : text := Stringified v.

(** Truthiness of the result of [getItem]: [null] and the empty string are
    falsy. *)
Definition truthy (item : option text) : option text :=
  match item with
  | None | Some EmptyText => None
  | Some t => Some t
  end.

Definition getHistory : M jsonv :=
  item ← localStorage_getItem HISTORY_KEY;
  JSON_parse (default (Stringified (JArray [])) (truthy item)).

(** [history.length > 0]; the [length] of the object is [undefined], and
    reading a property of [null] is a [TypeError]. *)
Definition length_positive (history : jsonv) : M bool :=
  match history with
  | JArray entries => mret (bool_decide (0 < length entries))
  | JObject _ => mret false
  | JNullValue => throw TypeError
  end.

(** [history[history.length - 1].cases] *)
Definition last_cases (history : jsonv) : M (gmap string CaseRecord) :=
  match history with
  | JArray entries =>
      match last entries with
      | Some s => mret (Snapshot.cases s)
      | None => throw TypeError
      end
  | JObject _ | JNullValue => throw TypeError
  end.

(** [parsed.cases || {}] *)
Definition cases_or_empty (parsed : jsonv) : M (gmap string CaseRecord) :=
  match parsed with
  | JObject o => mret (default ∅ (Latest.cases o))
  | JArray _ => mret ∅
  | JNullValue => throw TypeError
  end.

Definition getLastSavedCases : M (gmap string CaseRecord) :=
  history ← getHistory;
  length_positive history ≫= λ positive : bool,
  if positive then last_cases history
  else
    legacy ← localStorage_getItem STORAGE_KEY;
    match truthy legacy with
    | Some legacy =>
        parsed ← JSON_parse legacy;
        cases_or_empty parsed
    | None => mret ∅
    end.

(** [history.push(x)]: a [TypeError] when [history] has no [push]. *)
Definition Array_push (history : jsonv) (x : Snapshot.t) : M jsonv :=
  match history with
  | JArray entries => mret (JArray (entries ++ [x]))
  | JObject _ | JNullValue => throw TypeError
  end.

(** [now1] and [now2] are the two readings of the clock. *)
Definition saveToHistory (casesData : gmap string CaseRecord) (now1 now2 : string)
    : M unit :=
  history ← getHistory;
  history ← Array_push history (Snapshot.mk casesData (JString now1));
  _ ← localStorage_setItem HISTORY_KEY (JSON_stringify history);
  localStorage_setItem STORAGE_KEY
    (JSON_stringify (JObject (Latest.mk (Some casesData) (JString now2)))).

Definition clearAllHistory : M unit :=
  _ ← localStorage_removeItem HISTORY_KEY;
  localStorage_removeItem STORAGE_KEY.

(** The outcome and the final storage of a computation. *)
Definition outcome {A : Type} (m : M A) (st : gmap string text) : result A := (m st).1.
Definition storage_after {A : Type} (m : M A) (st : gmap string text)
    : gmap string text := (m st).2.

(** ** Vocabulary of the properties *)

(** Every record of [newCases] that [oldCases] does not know carries an
    [events] list. *)
Definition new_only_have_events (oldCases newCases : gmap string CaseRecord) : Prop :=
  ∀ caseNum n, newCases !! caseNum = Some n → oldCases !! caseNum = None →
    is_Some (events n).

(** Two events with the same composite key: both fields exactly equal. *)
Definition same_event (e1 e2 : Event.t) : Prop :=
  Event.eventCode e1 = Event.eventCode e2 ∧
  Event.updatedAtTimestamp e1 = Event.updatedAtTimestamp e2.

Fixpoint underscore_free (s : string) : bool :=
  match s with
  | EmptyString => true
  | String c s' => negb (Ascii.eqb c "_"%char) && underscore_free s'
  end.

(** An event whose two key fields are strings and whose code has no
    underscore. *)
Definition plain_key (e : Event.t) : Prop :=
  match Event.eventCode e, Event.updatedAtTimestamp e with
  | JString c, JString _ => underscore_free c = true
  | _, _ => False
  end.

(** The matching rule in the words of the design document: for a case known
    to both snapshots, an index is marked exactly when no event of the prior
    record has the same composite key. *)
Definition composite_key_rule (oldCases newCases : gmap string CaseRecord) : Prop :=
  ∀ h caseNum o n a i,
    detectFieldHighlights oldCases newCases = Ok h →
    oldCases !! caseNum = Some o → newCases !! caseNum = Some n →
    h !! caseNum = Some a →
    (i ∈ newEventIndices a ↔
     ∃ e, or_empty (events n) !! i = Some e ∧
          ¬ ∃ e', e' ∈ or_empty (events o) ∧ same_event e' e).

(** ** Sample data

    The scenario of the design document: case [A] known with one event, then
    fetched again with a second, more recent event. *)

Definition sample_event (code ts : string) : Event.t :=
  Event.mk (JString code) (JString "Unknown") (JString ts).

Definition sample_case (updated ts : string) (evs : option (list Event.t)) : CaseRecord :=
  {| caseNumber := "A";
     formType := JString "I-485";
     formName := JUndefined;
     closed := JBool false;
     updatedAt := JString updated;
     updatedAtTimestamp := JString ts;
     currentActionCode := from_option Event.eventCode JUndefined (head (or_empty evs));
     currentActionDesc := from_option Event.eventDesc JUndefined (head (or_empty evs));
     events := evs;
     documents := JsonArray [];
     lastFetched := JString "2024-03-01T00:00:00.000Z" |}.

Definition scenario_prior : gmap string CaseRecord :=
  {[ "A" := sample_case "T1" "T1" (Some [sample_event "IAF" "T1"]) ]}.

Definition scenario_new : gmap string CaseRecord :=
  {[ "A" := sample_case "T1" "T2"
              (Some [sample_event "H008" "T2"; sample_event "IAF" "T1"]) ]}.

(** A case stored without an [events] property. *)
Definition scenario_no_events : gmap string CaseRecord :=
  {[ "A" := sample_case "T1" "T1" None ]}.

(** Two events whose composite keys differ in both fields and whose
    template strings coincide: both are [A_B_C]. *)
Definition colliding_prior : gmap string CaseRecord :=
  {[ "A" := sample_case "T1" "T1" (Some [sample_event "A_B" "C"]) ]}.

Definition colliding_new : gmap string CaseRecord :=
  {[ "A" := sample_case "T1" "T1" (Some [sample_event "A" "B_C"]) ]}.

(** The events of a status payload, as [fetchCaseData] reads them. *)
Definition raw_events (statusResponse : result StatusData.t) : list RawEvent.t :=
  match statusResponse with
  | Ok statusData =>
      default [] (CaseInfo.events (default CaseInfo.empty (StatusData.data statusData)))
  | Throw _ => []
  end.

Definition raw_key (r : RawEvent.t) : jsprim * jsprim :=
  (RawEvent.eventCode r, RawEvent.updatedAtTimestamp r).

Definition event_key (e : Event.t) : jsprim * jsprim :=
  (Event.eventCode e, Event.updatedAtTimestamp e).

Section Timestamps.
Variable Date_time : jsprim → option Z.

(** The timestamp of the event is a date. *)
Definition valid_timestamp (e : Event.t) : Prop :=
  is_Some (Date_time (Event.updatedAtTimestamp e)).

(** [e1.updatedAtTimestamp >= e2.updatedAtTimestamp], compared as dates. *)
Definition not_before (e1 e2 : Event.t) : Prop :=
  ∃ t1 t2, Date_time (Event.updatedAtTimestamp e1) = Some t1 ∧
           Date_time (Event.updatedAtTimestamp e2) = Some t2 ∧ (t2 ≤ t1)%Z.

End Timestamps.

(** [{ ...rec, lastFetched: now }] *)
Definition with_lastFetched (now : string) (rec : CaseRecord) : CaseRecord :=
  {| caseNumber := caseNumber rec;
     formType := formType rec;
     formName := formName rec;
     closed := closed rec;
     updatedAt := updatedAt rec;
     updatedAtTimestamp := updatedAtTimestamp rec;
     currentActionCode := currentActionCode rec;
     currentActionDesc := currentActionDesc rec;
     events := events rec;
     documents := documents rec;
     lastFetched := JString now |}.

(** Two records that agree in every field but [lastFetched]. *)
Definition agree_but_lastFetched (r1 r2 : CaseRecord) : Prop :=
  caseNumber r1 = caseNumber r2 ∧
  formType r1 = formType r2 ∧
  formName r1 = formName r2 ∧
  closed r1 = closed r2 ∧
  updatedAt r1 = updatedAt r2 ∧
  updatedAtTimestamp r1 = updatedAtTimestamp r2 ∧
  currentActionCode r1 = currentActionCode r2 ∧
  currentActionDesc r1 = currentActionDesc r2 ∧
  events r1 = events r2 ∧
  documents r1 = documents r2.

(** The ordering invariant as the design document has it: in every record
    produced, each event is at least as recent as the next. *)
Definition events_always_descending (Date_time : jsprim → option Z)
    (caseNumber : string) (statusResponse : result StatusData.t)
    (docResponse : result json) (now : string) : Prop :=
  ∀ rec evs i e1 e2,
    fetchCaseData Date_time caseNumber statusResponse docResponse now = Some rec →
    events rec = Some evs →
    evs !! i = Some e1 → evs !! S i = Some e2 →
    not_before Date_time e1 e2.


(** Reconciliation as the design document has it: a function of the raw
    payload alone. *)
Definition payload_determines_record (Date_time : jsprim → option Z)
    (caseNumber : string) (statusResponse : result StatusData.t)
    (docResponse : result json) : Prop :=
  ∀ now1 now2,
    fetchCaseData Date_time caseNumber statusResponse docResponse now1 =
    fetchCaseData Date_time caseNumber statusResponse docResponse now2.

(** Two dates of the sample payload, with their time values in
    milliseconds. *)
Definition sample_Date_time (v : jsprim) : option Z :=
  match v with
  | JString s =>
      if decide (s = "2024-01-15T10:00:00Z") then Some 1705312800000%Z
      else if decide (s = "2024-03-02T08:30:00Z") then Some 1709368200000%Z
      else None
  | JNull => Some 0%Z
  | JBool b => Some (if b then 1 else 0)%Z
  | JUndefined => None
  end.

Definition sample_status : result StatusData.t :=
  Ok (StatusData.mk (Some
    (CaseInfo.mk (JString "I-485") (JString "Application to Register Permanent Residence")
       (JBool false) (JString "2024-03-02T08:30:00Z") (JString "2024-03-02T08:30:00Z")
       (Some [RawEvent.mk (JString "IAF") (JString "2024-01-15T10:00:00Z");
              RawEvent.mk (JString "h008") (JString "2024-03-02T08:30:00Z")])))).

(** A payload whose second event has no timestamp. *)
Definition untimed_status : result StatusData.t :=
  Ok (StatusData.mk (Some
    (CaseInfo.mk (JString "I-485") JUndefined (JBool false) JUndefined
       (JString "2024-03-02T08:30:00Z")
       (Some [RawEvent.mk (JString "IAF") (JString "2024-01-15T10:00:00Z");
              RawEvent.mk (JString "IKA") JUndefined;
              RawEvent.mk (JString "H008") (JString "2024-03-02T08:30:00Z")])))).

Definition sample_documents : result json := Ok (JsonObject [("data", JsonArray [])]).

(** ** Vocabulary of the history store *)

(** One call of [saveToHistory]: the cases and the two readings of the
    clock. *)
Definition save_call : Type := gmap string CaseRecord * (string * string).

(** Consecutive calls of [saveToHistory]. *)
Definition saves (calls : list save_call) (st : gmap string text) : gmap string text :=
  foldl (λ st call, storage_after (saveToHistory call.1 call.2.1 call.2.2) st) st calls.

Definition snapshot_of (call : save_call) : Snapshot.t :=
  Snapshot.mk call.1 (JString call.2.1).

(** Reading with corrupt storage as the design document has it: the text
    under the history key, or under the legacy key when the history is
    empty, is unparseable, and the read gives the empty mapping. *)
Definition corrupt_read_is_empty : Prop :=
  ∀ st,
    st !! HISTORY_KEY = Some Unparseable ∨
    (outcome getHistory st = Ok (JArray []) ∧ st !! STORAGE_KEY = Some Unparseable) →
    outcome getLastSavedCases st = Ok ∅.

(** Sample storages: only the snapshot of the previous format; an
    unparseable history; an unparseable snapshot of the previous format. *)
Definition legacy_only : gmap string text :=
  {[ STORAGE_KEY :=
       Stringified (JObject (Latest.mk (Some scenario_prior)
                                       (JString "2024-02-01T00:00:00.000Z"))) ]}.

Definition corrupt_history : gmap string text := {[ HISTORY_KEY := Unparseable ]}.

Definition corrupt_legacy : gmap string text := {[ STORAGE_KEY := Unparseable ]}.


(** * Further functions of the script *)

(** ** Display of case numbers: maskCaseId, displayCaseId *)

(** [\d]: the ASCII digits. *)
Definition is_digit (c : Ascii.ascii) : bool :=
  let n := Ascii.nat_of_ascii c in (48 <=? n)%nat && (n <=? 57)%nat.

(** [caseId.replace(/\d/g, '*')] *)
Fixpoint maskCaseId (caseId : string) : string :=
  match caseId with
  | EmptyString => EmptyString
  | String c rest => String (if is_digit c then "*"%char else c) (maskCaseId rest)
  end.

(** [caseIdsHidden] is the flag that the toggle button flips. *)
Definition displayCaseId (caseIdsHidden : bool) (caseId : string) : string :=
  if caseIdsHidden then maskCaseId caseId else caseId.

(** ** Discovery of case numbers: extractCaseNumbersFromDOM *)

(** The longest run of digits at the start of a text, and what follows. *)
Fixpoint take_digits (s : string) : string * string :=
  match s with
  | EmptyString => (EmptyString, EmptyString)
  | String c rest =>
      if is_digit c
      then let '(digits, rest') := take_digits rest in (String c digits, rest')
      else (EmptyString, s)
  end.

Fixpoint strip_prefix (p s : string) : option string :=
  match p with
  | EmptyString => Some s
  | String a p' =>
      match s with
      | EmptyString => None
      | String b s' => if Ascii.eqb a b then strip_prefix p' s' else None
      end
  end.

(** [/IOE\d+/] tried at the start of a text: the match and what follows. *)
Definition match_IOE (s : string) : option (string * string) :=
  rest ← strip_prefix "IOE" s;
  match take_digits rest with
  | (String c digits, rest') => Some ("IOE" +:+ String c digits, rest')
  | (EmptyString, _) => None
  end.

(** [text.match(/IOE\d+/g)]: the matches from left to right, the search
    resuming after each match and one character further after a failure.
    [fuel] bounds the number of positions tried. *)
Fixpoint match_all (fuel : nat) (s : string) : list string :=
  match fuel with
  | 0 => []
  | S fuel =>
      match match_IOE s with
      | Some (m, rest) => m :: match_all fuel rest
      | None =>
          match s with
          | EmptyString => []
          | String _ s' => match_all fuel s'
          end
      end
  end.

(** [Array.from(new Set(matches))]: each value once, in the order of the
    first occurrences. *)
Definition Set_to_Array (matches : list string) : list string :=
  foldl (λ (seen : list string) m, if decide (m ∈ seen) then seen else (seen ++ [m])%list)
        [] matches.

(** [pageText] is [document.body.innerText]; no match ([null]) gives the
    empty array. *)
Definition extractCaseNumbersFromDOM (pageText : string) : list string :=
  Set_to_Array (match_all (String.length pageText) pageText).

(** ** The main pass: trackCases *)

(** What the two requests for one case number give, and the reading of the
    clock when its record is built. *)
Module Fetched.
Record t := mk {
  status : result StatusData.t;
  documents : result json;
  now : string
}.
End Fetched.

(** The globals that [trackCases] sets and the changes that it logs. *)
Module Tracked.
Record t := mk {
  fieldHighlights : gmap string Highlight;
  currentCaseData : gmap string CaseRecord;
  changes : list (string * Highlight)
}.
End Tracked.

Definition lift {A : Type} (r : result A) : M A := λ st, (r, st).

(** [h.isNew || h.updatedAtChanged || h.newEventIndices.size > 0] *)
Definition hasChange (h : Highlight) : bool :=
  isNew h || updatedAtChanged h || bool_decide (0 < size (newEventIndices h)).

Definition Object_entries {A : Type} (o : gmap string A) : list (string * A) :=
  map_to_list o.

Section Tracker.
Variable Date_time : jsprim → option Z.

(** [for (const caseNum of caseNumbers) { ... if (caseData) newData[caseNum] = caseData; }] *)
Definition collectCases (caseNumbers : list string) (fetch : string → Fetched.t)
    : gmap string CaseRecord :=
  foldl (λ newData caseNum,
           let caseData :=
             fetchCaseData Date_time caseNum
               (Fetched.status (fetch caseNum)) (Fetched.documents (fetch caseNum))
               (Fetched.now (fetch caseNum)) in
           match caseData with
           | Some caseData => <[caseNum := caseData]> newData
           | None => newData
           end)
        ∅ caseNumbers.

(** The pass without its writes to the document (the wait for the page and
    [renderPane] read the globals and touch neither the values nor the
    storage).  [pageText] is the text of the page, [fetch] what the service
    answers for each case number, [now1] and [now2] the readings of the clock
    in [saveToHistory]. *)
Definition trackCases (pageText : string) (fetch : string → Fetched.t)
    (now1 now2 : string) : M Tracked.t :=
  let caseNumbers := extractCaseNumbersFromDOM pageText in
  lastSavedCases ← getLastSavedCases;
  let newData := collectCases caseNumbers fetch in
  fieldHighlights ← lift (detectFieldHighlights lastSavedCases newData);
  let currentCaseData := newData in
  let changes :=
    filter (λ entry, hasChange entry.2 = true) (Object_entries fieldHighlights) in
  _ ← saveToHistory newData now1 now2;
  mret (Tracked.mk fieldHighlights currentCaseData changes).

End Tracker.

(** ** Version 0.4 of the script: fetchCaseData, getStoredData, detectChanges *)

(** The table of version 0.4: [LDF] where version 0.5 has [LDA]. *)
Definition EVENT_CODES_v04 : gmap string string :=
  Map_of_entries [
    ("IAF", "Receipt letter emailed");
    ("FTA0", "Biometrics / database checks received");
    ("SA", "Status Adjusted");
    ("LDF", "Card Produced");
    ("H008", "Case Approved");
    ("H016", "Case Denied");
    ("IKA", "RFE issued")
  ].

Definition getEventCodeDescription_v04 (key : jsprim) : result string :=
  match key with
  | JString s =>
      let normalizedKey := toUpperCase s in
      let lookupKey := EVENT_CODES_v04 !! normalizedKey in
      Ok (default "Unknown" lookupKey)
  | _ => Throw TypeError
  end.

Section ReconcilerV04.
Variable Date_time : jsprim → option Z.

Definition mapEvent_v04 (event : RawEvent.t) : result Event.t :=
  desc ← getEventCodeDescription_v04 (RawEvent.eventCode event);
  Ok (Event.mk (RawEvent.eventCode event) (JString desc)
               (RawEvent.updatedAtTimestamp event)).

(** [fetchCaseData] of version 0.4: the record has no [closed] and no
    [updatedAt], and [sortedEvents[0].eventCode] is read without a guard, a
    [TypeError] when there is no event. *)
Definition fetchCaseData_v04 (caseNumber : string)
    (statusResponse : result StatusData.t) (docResponse : result json)
    (now : string) : option CaseRecord :=
  catch_null (
    statusData ← statusResponse;
    documentsData ← docResponse;
    let caseInfo := default CaseInfo.empty (StatusData.data statusData) in
    mapped ← mapM mapEvent_v04 (default [] (CaseInfo.events caseInfo));
    let sortedEvents := Array_sort (compareEvents Date_time) mapped in
    first ← defined (head sortedEvents);
    Ok {| caseNumber := caseNumber;
          formType := CaseInfo.formType caseInfo;
          formName := CaseInfo.formName caseInfo;
          closed := JUndefined;
          updatedAt := JUndefined;
          updatedAtTimestamp := CaseInfo.updatedAtTimestamp caseInfo;
          currentActionCode := Event.eventCode first;
          currentActionDesc := Event.eventDesc first;
          events := Some sortedEvents;
          documents := documentsData;
          lastFetched := JString now |}).

End ReconcilerV04.

(** [stored ? JSON.parse(stored) : { cases: {}, lastFetch: null }] *)
Definition getStoredData : M jsonv :=
  stored ← localStorage_getItem STORAGE_KEY;
  match truthy stored with
  | Some stored => JSON_parse stored
  | None => mret (JObject (Latest.mk (Some ∅) JNull))
  end.

(** The write that ends [trackCases] in version 0.4. *)
Definition storeLatest (newData : gmap string CaseRecord) (now : string) : M unit :=
  localStorage_setItem STORAGE_KEY
    (JSON_stringify (JObject (Latest.mk (Some newData) (JString now)))).

(** One entry of [changes]; [data] is [newData[caseNum]], the two optional
    properties are [None] where the entry does not have them. *)
Module Change.
Record t := mk {
  caseNum : string;
  type : string;
  data : option CaseRecord;
  oldTimestamp : option jsprim;
  newEvents : option (list Event.t);
  changeDetails : string
}.
End Change.

(** The callback of [Object.keys(newData).forEach] in [detectChanges]:
    [changes] after the calls of [push]. *)
Definition detectChange (oldData newData : gmap string CaseRecord)
    (changes : list Change.t) (caseNum : string) : result (list Change.t) :=
  match oldData !! caseNum with
  | None =>
      Ok (changes ++ [Change.mk caseNum "NEW" (newData !! caseNum) None None
                                "New case added"])%list
  | Some oldCase =>
      newCase ← defined (newData !! caseNum);
      let changes :=
        if strict_neq (updatedAtTimestamp oldCase) (updatedAtTimestamp newCase)
        then (changes ++ [Change.mk caseNum "UPDATED" (Some newCase)
                            (Some (updatedAtTimestamp oldCase)) None
                            ("Case updated from "
                               +:+ template (updatedAtTimestamp oldCase)
                               +:+ " to " +:+ template (updatedAtTimestamp newCase))])%list
        else changes in
      let oldEventCount := length (or_empty (events oldCase)) in
      let newEventCount := length (or_empty (events newCase)) in
      if bool_decide (oldEventCount < newEventCount) then
        evs ← defined (events newCase);
        let newEvents := take (newEventCount - oldEventCount) evs in
        Ok (changes ++ [Change.mk caseNum "NEW_EVENTS" (Some newCase) None
                          (Some newEvents)
                          (pretty (newEventCount - oldEventCount)
                             +:+ " new event(s) added")])%list
      else Ok changes
  end.

Definition detectChanges (oldData newData : gmap string CaseRecord)
    : result (list Change.t) :=
  forEach (λ changes caseNum _,
             cs ← changes;
             detectChange oldData newData cs caseNum)
          (Object_keys newData) (Ok []).

(** ** Vocabulary of the further properties *)

Fixpoint all_digits (s : string) : bool :=
  match s with
  | EmptyString => true
  | String c rest => is_digit c && all_digits rest
  end.

Fixpoint no_digit (s : string) : bool :=
  match s with
  | EmptyString => true
  | String c rest => negb (is_digit c) && no_digit rest
  end.

(** A run of [n] stars. *)
Fixpoint stars (n : nat) : string :=
  match n with
  | 0 => EmptyString
  | S n => String "*"%char (stars n)
  end.

(** [IOE] followed by one digit or more. *)
Definition is_case_number (s : string) : Prop :=
  ∃ digits, s = "IOE" +:+ digits ∧ digits ≠ "" ∧ all_digits digits = true.

(** The text does not go on with a digit. *)
Definition no_leading_digit (s : string) : Prop :=
  match s with
  | EmptyString => True
  | String c _ => is_digit c = false
  end.

(** [n] (the new record) brings nothing that [o] (the prior one) lacks: the
    two update markers are the same and every event of [n] has the key of an
    event of [o]. *)
Definition nothing_new (o n : CaseRecord) : Prop :=
  updatedAt o = updatedAt n ∧
  updatedAtTimestamp o = updatedAtTimestamp n ∧
  ∀ e, e ∈ or_empty (events n) → eventKey e ∈ eventKey <$> or_empty (events o).

(** An annotation that flags nothing. *)
Definition no_highlight (a : Highlight) : Prop :=
  isNew a = false ∧ updatedAtChanged a = false ∧ newEventIndices a = ∅.

(** The events of a payload come most recent first. *)
Definition raw_not_before (Date_time : jsprim → option Z) (r1 r2 : RawEvent.t) : Prop :=
  ∃ t1 t2, Date_time (RawEvent.updatedAtTimestamp r1) = Some t1 ∧
           Date_time (RawEvent.updatedAtTimestamp r2) = Some t2 ∧ (t2 ≤ t1)%Z.

(** The [updatedAt] of a status payload, as [fetchCaseData] reads it. *)
Definition raw_updatedAt (statusResponse : result StatusData.t) : jsprim :=
  match statusResponse with
  | Ok statusData =>
      CaseInfo.updatedAt (default CaseInfo.empty (StatusData.data statusData))
  | Throw _ => JUndefined
  end.

(** Sample page and answers of the service. *)
Definition sample_page : string :=
  "Your cases: IOE0912345678 (I-485), IOE0987654321 (I-765); see IOE0912345678.".

Definition sample_fetch (caseNum : string) : Fetched.t :=
  if decide (caseNum = "IOE0912345678")
  then Fetched.mk sample_status sample_documents "2024-03-03T09:00:00.000Z"
  else Fetched.mk (Throw NetworkError) sample_documents "2024-03-03T09:00:01.000Z".
(** * Properties of the diff engine *)

Section ForEach.
Context {A : Type}.

Lemma forEach_add_all (evs : list A) (i : nat) (h : Highlight) :
  let r := forEach_from (λ h (_ : A) i, add_newEventIndex i h) i evs h in
  isNew r = isNew h ∧ updatedAtChanged r = updatedAtChanged h ∧
  newEventIndices r = set_seq i (length evs) ∪ newEventIndices h.
Proof.
  revert i h. induction evs as [|x evs IH]; intros i h; cbv zeta; simpl.
  - repeat split. set_solver.
  - destruct (IH (S i) (add_newEventIndex i h)) as (E1 & E2 & E3); cbv zeta in *.
    rewrite E1, E2, E3. simpl. repeat split. set_solver.
Qed.

End ForEach.

Lemma forEach_add_unseen (K : gset string) (evs : list Event.t) (i0 : nat) (h : Highlight) :
  let r := forEach_from (λ h event i,
                           let key := eventKey event in
                           if decide (key ∈ K) then h else add_newEventIndex i h)
                        i0 evs h in
  isNew r = isNew h ∧ updatedAtChanged r = updatedAtChanged h ∧
  ∀ j, j ∈ newEventIndices r ↔
       j ∈ newEventIndices h ∨
       ∃ e, i0 ≤ j ∧ evs !! (j - i0) = Some e ∧ eventKey e ∉ K.
Proof.
  revert i0 h. induction evs as [|x evs IH]; intros i0 h; cbv zeta; simpl.
  - repeat split; [tauto|]. intros [?|(e & _ & He & _)]; [done|]. by rewrite lookup_nil in He.
  - destruct (IH (S i0) (if decide (eventKey x ∈ K) then h else add_newEventIndex i0 h))
      as (E1 & E2 & E3); cbv zeta in *.
    rewrite E1, E2. split; [by case_decide|]. split; [by case_decide|].
    intros j. rewrite E3. split.
    + intros [Hj|(e & Hle & He & Hk)].
      * case_decide; [by left|]. simpl in Hj.
        apply elem_of_union in Hj as [Hj|Hj]; [|by left].
        apply elem_of_singleton in Hj as ->. right. exists x.
        rewrite Nat.sub_diag. done.
      * right. exists e. split; [lia|]. split; [|done].
        replace (j - i0) with (S (j - S i0)) by lia. done.
    + intros [Hj|(e & Hle & He & Hk)].
      * left. case_decide; [done|]. simpl. set_solver.
      * destruct (decide (j = i0)) as [->|Hne].
        -- rewrite Nat.sub_diag in He. simpl in He. injection He as ->.
           left. rewrite decide_False by done. simpl. set_solver.
        -- right. exists e. split; [lia|]. split; [|done].
           replace (j - i0) with (S (j - S i0)) in He by lia. done.
Qed.

(** ** The callback on one case *)

Lemma highlightCase_new oldCases newCases caseNum n evs :
  oldCases !! caseNum = None → newCases !! caseNum = Some n →
  events n = Some evs →
  ∃ a, highlightCase oldCases newCases caseNum = Ok a ∧
       isNew a = true ∧ updatedAtChanged a = true ∧
       newEventIndices a = set_seq 0 (length evs).
Proof.
  intros Ho Hn Hev. unfold highlightCase. rewrite Ho, Hn. simpl. rewrite Hev. simpl.
  eexists. split; [reflexivity|]. unfold forEach.
  match goal with |- context [forEach_from ?f 0 evs ?h] =>
    destruct (forEach_add_all evs 0 h) as (E1 & E2 & E3) end.
  cbv zeta in *. rewrite E1, E2, E3. simpl. repeat split. set_solver.
Qed.

Lemma highlightCase_new_no_events oldCases newCases caseNum n :
  oldCases !! caseNum = None → newCases !! caseNum = Some n →
  events n = None →
  highlightCase oldCases newCases caseNum = Throw TypeError.
Proof.
  intros Ho Hn Hev. unfold highlightCase. rewrite Ho, Hn. simpl. by rewrite Hev.
Qed.

Lemma highlightCase_known oldCases newCases caseNum o n :
  oldCases !! caseNum = Some o → newCases !! caseNum = Some n →
  ∃ a, highlightCase oldCases newCases caseNum = Ok a ∧
       isNew a = false ∧
       updatedAtChanged a =
         strict_neq (updatedAtTimestamp o) (updatedAtTimestamp n)
         || strict_neq (updatedAt o) (updatedAt n) ∧
       ∀ i, i ∈ newEventIndices a ↔
            ∃ e, or_empty (events n) !! i = Some e ∧
                 eventKey e ∉ eventKey <$> or_empty (events o).
Proof.
  intros Ho Hn. unfold highlightCase. rewrite Ho, Hn. simpl.
  eexists. split; [reflexivity|]. unfold forEach.
  match goal with |- context [forEach_from ?f 0 ?l ?h] =>
    destruct (forEach_add_unseen
                (list_to_set (eventKey <$> or_empty (events o)))
                l 0 h) as (E1 & E2 & E3) end.
  cbv zeta in *. rewrite E1, E2. split; [by case_match|]. split; [by case_match|].
  intros i. rewrite E3. split.
  - intros [Hi|(e & _ & He & Hk)].
    + case_match; simpl in Hi; set_solver.
    + exists e. rewrite Nat.sub_0_r in He. split; [done|].
      by rewrite elem_of_list_to_set in Hk.
  - intros (e & He & Hk). right. exists e. rewrite Nat.sub_0_r.
    split; [lia|]. split; [done|]. by rewrite elem_of_list_to_set.
Qed.

Lemma highlightCase_Throw oldCases newCases caseNum e :
  highlightCase oldCases newCases caseNum = Throw e → e = TypeError.
Proof.
  unfold highlightCase.
  destruct (oldCases !! caseNum); destruct (newCases !! caseNum) as [n|]; simpl;
    try congruence.
  destruct (events n); simpl; congruence.
Qed.

(** ** The loop over [Object.keys(newCases)] *)

Section Loop.
Variables oldCases newCases : gmap string CaseRecord.

Let step (highlights : result (gmap string Highlight)) (caseNum : string) (_ : nat) :=
  hs ← highlights;
  h ← highlightCase oldCases newCases caseNum;
  Ok (<[caseNum := h]> hs).

Lemma loop_Throw ks i e : forEach_from step i ks (Throw e) = Throw e.
Proof. revert i. induction ks as [|k ks IH]; intros i; simpl; [done|]. apply IH. Qed.

Lemma loop_Ok ks i acc h :
  forEach_from step i ks (Ok acc) = Ok h →
  (∀ k, k ∈ ks → ∃ a, highlightCase oldCases newCases k = Ok a ∧ h !! k = Some a) ∧
  (∀ k, k ∉ ks → h !! k = acc !! k).
Proof.
  revert i acc. induction ks as [|k0 ks IH]; intros i acc; simpl.
  - intros [= ->]. split; [|done]. intros k Hk. by apply elem_of_nil in Hk.
  - destruct (highlightCase oldCases newCases k0) as [a0|e0] eqn:Hk0; simpl.
    + intros Hloop. destruct (IH _ _ Hloop) as [Hin Hout]. split.
      * intros k Hk. destruct (decide (k ∈ ks)) as [Hks|Hks]; [by apply Hin|].
        apply elem_of_cons in Hk as [->|Hk]; [|done].
        exists a0. split; [done|]. rewrite (Hout _ Hks). apply lookup_insert_eq.
      * intros k Hk. apply not_elem_of_cons in Hk as [Hne Hk].
        rewrite (Hout _ Hk). by apply lookup_insert_ne.
    + rewrite loop_Throw. discriminate.
Qed.

Lemma loop_total ks i acc :
  (∀ k, k ∈ ks → ∃ a, highlightCase oldCases newCases k = Ok a) →
  ∃ h, forEach_from step i ks (Ok acc) = Ok h.
Proof.
  revert i acc. induction ks as [|k0 ks IH]; intros i acc Hall; simpl.
  - by eexists.
  - destruct (Hall k0) as [a0 Ha0]; [by left|].
    rewrite Ha0. simpl.
    apply IH. intros k Hk. apply Hall. by right.
Qed.

Lemma loop_fails ks i acc k e :
  k ∈ ks → highlightCase oldCases newCases k = Throw e →
  forEach_from step i ks (Ok acc) = Throw TypeError.
Proof.
  revert i acc. induction ks as [|k0 ks IH]; intros i acc Hk He; simpl.
  - by apply elem_of_nil in Hk.
  - destruct (highlightCase oldCases newCases k0) as [a0|e0] eqn:Hk0; simpl.
    + apply elem_of_cons in Hk as [->|Hk]; [congruence|]. by apply IH.
    + rewrite loop_Throw. f_equal. by eapply highlightCase_Throw.
Qed.

Lemma loop_raises_TypeError ks i acc e :
  forEach_from step i ks (Ok acc) = Throw e → e = TypeError.
Proof.
  revert i acc. induction ks as [|k0 ks IH]; intros i acc; simpl; [discriminate|].
  destruct (highlightCase oldCases newCases k0) as [a0|e0] eqn:Hk0; simpl.
  - apply IH.
  - rewrite loop_Throw. intros [= <-]. by eapply highlightCase_Throw.
Qed.

End Loop.

Lemma elem_of_Object_keys {A : Type} (o : gmap string A) (k : string) :
  k ∈ Object_keys o ↔ is_Some (o !! k).
Proof.
  unfold Object_keys. rewrite list_elem_of_fmap. split.
  - intros ([k' v] & -> & Hkv). apply elem_of_map_to_list in Hkv. by exists v.
  - intros [v Hv]. exists (k, v). split; [done|]. by apply elem_of_map_to_list.
Qed.

Lemma detect_Ok_known oldCases newCases h caseNum n :
  detectFieldHighlights oldCases newCases = Ok h →
  newCases !! caseNum = Some n →
  ∃ a, highlightCase oldCases newCases caseNum = Ok a ∧ h !! caseNum = Some a.
Proof.
  intros Hd Hn. apply loop_Ok in Hd as [Hin _]. apply Hin.
  apply elem_of_Object_keys. by exists n.
Qed.

Lemma detect_Ok_unknown oldCases newCases h caseNum :
  detectFieldHighlights oldCases newCases = Ok h →
  newCases !! caseNum = None → h !! caseNum = None.
Proof.
  intros Hd Hn. apply loop_Ok in Hd as [_ Hout]. rewrite Hout; [done|].
  rewrite elem_of_Object_keys, Hn. by intros [? ?].
Qed.

Lemma detect_total oldCases newCases :
  (∀ caseNum n, newCases !! caseNum = Some n →
     ∃ a, highlightCase oldCases newCases caseNum = Ok a) →
  ∃ h, detectFieldHighlights oldCases newCases = Ok h.
Proof.
  intros Hall. apply loop_total. intros k Hk.
  apply elem_of_Object_keys in Hk as [n Hn]. by eapply Hall.
Qed.

Lemma detect_fails oldCases newCases caseNum n e :
  newCases !! caseNum = Some n →
  highlightCase oldCases newCases caseNum = Throw e →
  detectFieldHighlights oldCases newCases = Throw TypeError.
Proof.
  intros Hn He. eapply loop_fails; [|done]. apply elem_of_Object_keys. by exists n.
Qed.

Lemma detect_total_events oldCases newCases :
  new_only_have_events oldCases newCases →
  ∃ h, detectFieldHighlights oldCases newCases = Ok h.
Proof.
  intros Hpre. apply detect_total. intros caseNum n Hn.
  destruct (oldCases !! caseNum) as [o|] eqn:Ho.
  - destruct (highlightCase_known _ _ _ _ _ Ho Hn) as (a & Ha & _). by exists a.
  - destruct (Hpre _ _ Hn Ho) as [evs Hev].
    destruct (highlightCase_new _ _ _ _ _ Ho Hn Hev) as (a & Ha & _). by exists a.
Qed.

Lemma detect_Throw_TypeError oldCases newCases e :
  detectFieldHighlights oldCases newCases = Throw e → e = TypeError.
Proof. apply loop_raises_TypeError. Qed.

Lemma detect_Ok_events oldCases newCases h :
  detectFieldHighlights oldCases newCases = Ok h →
  new_only_have_events oldCases newCases.
Proof.
  intros Hd caseNum n Hn Ho.
  destruct (detect_Ok_known _ _ _ _ _ Hd Hn) as (a & Ha & _).
  destruct (events n) as [evs|] eqn:Hev; [by eexists|].
  rewrite (highlightCase_new_no_events _ _ _ _ Ho Hn Hev) in Ha. discriminate.
Qed.

(** ** The template key against the composite key *)

Lemma underscore_key_inj c1 c2 t1 t2 :
  underscore_free c1 = true → underscore_free c2 = true →
  c1 +:+ "_" +:+ t1 = c2 +:+ "_" +:+ t2 → c1 = c2 ∧ t1 = t2.
Proof.
  revert c2. induction c1 as [|a c1 IH]; intros [|b c2]; simpl; intros H1 H2 Heq.
  - injection Heq as Heq. simpl in Heq. by subst.
  - injection Heq as <- _. apply andb_true_iff in H2 as [H2 _]. by vm_compute in H2.
  - injection Heq as -> _. apply andb_true_iff in H1 as [H1 _]. by vm_compute in H1.
  - injection Heq as -> Heq. apply andb_true_iff in H1 as [_ H1].
    apply andb_true_iff in H2 as [_ H2].
    destruct (IH c2 H1 H2 Heq) as [-> ->]. done.
Qed.

Lemma eventKey_plain_inj e1 e2 :
  plain_key e1 → plain_key e2 → eventKey e1 = eventKey e2 → same_event e1 e2.
Proof.
  destruct e1 as [c1 d1 t1], e2 as [c2 d2 t2]. unfold plain_key, eventKey, same_event.
  simpl. destruct c1, t1; try done. destruct c2, t2; try done. simpl.
  intros H1 H2 Heq. destruct (underscore_key_inj _ _ _ _ H1 H2 Heq) as [-> ->]. done.
Qed.

Lemma same_event_eventKey e1 e2 : same_event e1 e2 → eventKey e1 = eventKey e2.
Proof. intros [H1 H2]. unfold eventKey. by rewrite H1, H2. Qed.

(** ** The claims on the diff engine *)

(** C1. Provided every record that only the new mapping knows carries an
    events list, [detectFieldHighlights] returns, and every id of the new
    mapping that the prior mapping lacks is annotated [isNew], with
    [updatedAtChanged] set and [newEventIndices] the full index range
    [0 .. n-1] of the events of its record. *)
Theorem new_case_highlight oldCases newCases :
  new_only_have_events oldCases newCases →
  ∃ h, detectFieldHighlights oldCases newCases = Ok h ∧
    ∀ caseNum n, newCases !! caseNum = Some n → oldCases !! caseNum = None →
      ∃ a evs, h !! caseNum = Some a ∧ events n = Some evs ∧
        isNew a = true ∧ updatedAtChanged a = true ∧
        newEventIndices a = set_seq 0 (length evs).
Proof.
  intros Hpre. destruct (detect_total_events _ _ Hpre) as [h Hd].
  exists h. split; [done|]. intros caseNum n Hn Ho.
  destruct (Hpre _ _ Hn Ho) as [evs Hev].
  destruct (detect_Ok_known _ _ _ _ _ Hd Hn) as (a & Ha & Hh).
  destruct (highlightCase_new _ _ _ _ _ Ho Hn Hev) as (a' & Ha' & Hnew & Hch & Hix).
  assert (a = a') as -> by congruence.
  exists a', evs. done.
Qed.

Lemma new_case_highlight_witness :
  new_only_have_events ∅ scenario_new ∧
  ∃ h, detectFieldHighlights ∅ scenario_new = Ok h ∧
    ∀ caseNum n, scenario_new !! caseNum = Some n →
      (∅ : gmap string CaseRecord) !! caseNum = None →
      ∃ a evs, h !! caseNum = Some a ∧ events n = Some evs ∧
        isNew a = true ∧ updatedAtChanged a = true ∧
        newEventIndices a = set_seq 0 (length evs).
Proof.
  assert (Hpre : new_only_have_events ∅ scenario_new).
  { intros caseNum n Hn _. unfold scenario_new in Hn.
    apply lookup_singleton_Some in Hn as [_ <-]. by eexists. }
  split; [exact Hpre|]. exact (new_case_highlight ∅ scenario_new Hpre).
Defined.

(** C3. For an id known to both mappings, [updatedAtChanged] is set exactly
    when the two records differ in [updatedAt] or in [updatedAtTimestamp],
    the values being compared as they are (two texts of one instant
    differ). *)
Theorem updatedAtChanged_exact oldCases newCases :
  new_only_have_events oldCases newCases →
  ∃ h, detectFieldHighlights oldCases newCases = Ok h ∧
    ∀ caseNum o n, oldCases !! caseNum = Some o → newCases !! caseNum = Some n →
      ∃ a, h !! caseNum = Some a ∧ isNew a = false ∧
        (updatedAtChanged a = true ↔
         updatedAt o ≠ updatedAt n ∨ updatedAtTimestamp o ≠ updatedAtTimestamp n).
Proof.
  intros Hpre. destruct (detect_total_events _ _ Hpre) as [h Hd].
  exists h. split; [done|]. intros caseNum o n Ho Hn.
  destruct (detect_Ok_known _ _ _ _ _ Hd Hn) as (a & Ha & Hh).
  destruct (highlightCase_known _ _ _ _ _ Ho Hn) as (a' & Ha' & Hnew & Hch & _).
  assert (a = a') as -> by congruence.
  exists a'. split; [done|]. split; [done|].
  rewrite Hch, orb_true_iff. unfold strict_neq. rewrite !bool_decide_eq_true. tauto.
Qed.

Lemma updatedAtChanged_exact_witness :
  new_only_have_events scenario_prior scenario_new ∧
  ∃ h, detectFieldHighlights scenario_prior scenario_new = Ok h ∧
    ∀ caseNum o n, scenario_prior !! caseNum = Some o →
      scenario_new !! caseNum = Some n →
      ∃ a, h !! caseNum = Some a ∧ isNew a = false ∧
        (updatedAtChanged a = true ↔
         updatedAt o ≠ updatedAt n ∨ updatedAtTimestamp o ≠ updatedAtTimestamp n).
Proof.
  assert (Hpre : new_only_have_events scenario_prior scenario_new).
  { intros caseNum n Hn _. unfold scenario_new in Hn.
    apply lookup_singleton_Some in Hn as [_ <-]. by eexists. }
  split; [exact Hpre|]. exact (updatedAtChanged_exact scenario_prior scenario_new Hpre).
Defined.

(** C2, as stated, fails: the key is the text [code_timestamp], and the
    pairs [(A_B, C)] and [(A, B_C)] give the same text.  The event of the new
    record has a composite key that no prior event has, and its index is not
    marked. *)
Lemma composite_key_rule_fails : ¬ composite_key_rule colliding_prior colliding_new.
Proof.
  intros Hrule.
  destruct (detectFieldHighlights colliding_prior colliding_new) as [h|e] eqn:Hd;
    [|by vm_compute in Hd].
  destruct (h !! "A") as [a|] eqn:Ha.
  2:{ assert (Hd' := Hd). vm_compute in Hd'. injection Hd' as <-. by vm_compute in Ha. }
  assert (Hempty : elements (newEventIndices a) = []).
  { assert (Hd' := Hd). vm_compute in Hd'. injection Hd' as <-.
    vm_compute in Ha. injection Ha as <-. reflexivity. }
  assert (Hin : 0 ∈ newEventIndices a).
  { eapply (Hrule h "A" _ _ a 0 Hd); [reflexivity|reflexivity|exact Ha|].
    exists (sample_event "A" "B_C"). split; [reflexivity|].
    intros (e' & He' & Hc & _). simpl in He'.
    apply list_elem_of_singleton in He' as ->. discriminate Hc. }
  apply elem_of_elements in Hin. rewrite Hempty in Hin. by apply elem_of_nil in Hin.
Qed.

(** C2, amended.  For an id known to both mappings: an event of the new
    record that has the two key fields of some prior event is never marked,
    wherever it stands in either list; an index is marked exactly when the
    text [eventCode_updatedAtTimestamp] of its event is the text of no prior
    event; and when the key fields of all the events are strings and the
    codes have no underscore, exactly when no prior event has the same
    composite key. *)
Theorem composite_key_matching oldCases newCases :
  new_only_have_events oldCases newCases →
  ∃ h, detectFieldHighlights oldCases newCases = Ok h ∧
    ∀ caseNum o n, oldCases !! caseNum = Some o → newCases !! caseNum = Some n →
      ∃ a, h !! caseNum = Some a ∧
        (∀ i e e', or_empty (events n) !! i = Some e →
           e' ∈ or_empty (events o) → same_event e' e → i ∉ newEventIndices a) ∧
        (∀ i, i ∈ newEventIndices a ↔
           ∃ e, or_empty (events n) !! i = Some e ∧
                eventKey e ∉ eventKey <$> or_empty (events o)) ∧
        (Forall plain_key (or_empty (events o)) →
         Forall plain_key (or_empty (events n)) →
         ∀ i, i ∈ newEventIndices a ↔
           ∃ e, or_empty (events n) !! i = Some e ∧
                ¬ ∃ e', e' ∈ or_empty (events o) ∧ same_event e' e).
Proof.
  intros Hpre. destruct (detect_total_events _ _ Hpre) as [h Hd].
  exists h. split; [done|]. intros caseNum o n Ho Hn.
  destruct (detect_Ok_known _ _ _ _ _ Hd Hn) as (a & Ha & Hh).
  destruct (highlightCase_known _ _ _ _ _ Ho Hn) as (a' & Ha' & _ & _ & Hix).
  assert (a = a') as -> by congruence.
  exists a'. split; [done|]. split; [|split; [done|]].
  - intros i e e' He He' Hsame Hi. apply Hix in Hi as (e0 & He0 & Hk).
    assert (e0 = e) as -> by congruence.
    apply Hk, list_elem_of_fmap. exists e'. split; [|done].
    symmetry. by apply same_event_eventKey.
  - intros Hpo Hpn i. rewrite Hix. split.
    + intros (e & He & Hk). exists e. split; [done|].
      intros (e' & He' & Hsame). apply Hk, list_elem_of_fmap. exists e'.
      split; [|done]. symmetry. by apply same_event_eventKey.
    + intros (e & He & Hnone). exists e. split; [done|].
      intros Hk. apply list_elem_of_fmap in Hk as (e' & Hkey & He').
      apply Hnone. exists e'. split; [done|].
      apply eventKey_plain_inj; [| |done].
      * by eapply Forall_forall in Hpo.
      * eapply Forall_forall in Hpn; [done|]. by eapply list_elem_of_lookup_2.
Qed.

Lemma composite_key_matching_witness :
  new_only_have_events scenario_prior scenario_new ∧
  ∃ h a, detectFieldHighlights scenario_prior scenario_new = Ok h ∧
    h !! "A" = Some a ∧ 0 ∈ newEventIndices a ∧ 1 ∉ newEventIndices a.
Proof.
  assert (Hpre : new_only_have_events scenario_prior scenario_new).
  { intros caseNum n Hn _. unfold scenario_new in Hn.
    apply lookup_singleton_Some in Hn as [_ <-]. by eexists. }
  split; [exact Hpre|].
  destruct (composite_key_matching scenario_prior scenario_new Hpre) as (h & Hd & Hall).
  destruct (Hall "A" _ _ eq_refl eq_refl) as (a & Ha & Hsame & _ & Hpair).
  exists h, a. split; [exact Hd|]. split; [exact Ha|]. split.
  - apply Hpair.
    + repeat constructor.
    + repeat constructor.
    + exists (sample_event "H008" "T2"). split; [reflexivity|].
      intros (e' & He' & Hc & _). simpl in He'.
      apply list_elem_of_singleton in He' as ->. discriminate Hc.
  - apply (Hsame 1 (sample_event "IAF" "T1") (sample_event "IAF" "T1")).
    + reflexivity.
    + simpl. apply list_elem_of_singleton. reflexivity.
    + split; reflexivity.
Defined.

(** C10. The call returns exactly when every record that only the new
    mapping knows carries an events list, and raises a [TypeError] otherwise;
    for an id known to both mappings a missing events list on the new record
    leaves no index marked, and a missing events list on the prior record
    leaves every index of the new record marked. *)
Theorem events_guard_asymmetry oldCases newCases :
  ((∃ h, detectFieldHighlights oldCases newCases = Ok h) ↔
   new_only_have_events oldCases newCases) ∧
  (¬ new_only_have_events oldCases newCases →
   detectFieldHighlights oldCases newCases = Throw TypeError) ∧
  (∀ caseNum o n, oldCases !! caseNum = Some o → newCases !! caseNum = Some n →
     ∃ a, highlightCase oldCases newCases caseNum = Ok a ∧
       (∀ h, detectFieldHighlights oldCases newCases = Ok h → h !! caseNum = Some a) ∧
       (events n = None → newEventIndices a = ∅) ∧
       (events o = None →
        newEventIndices a = set_seq 0 (length (or_empty (events n))))).
Proof.
  split; [|split].
  - split; [intros [h Hd]; by eapply detect_Ok_events | apply detect_total_events].
  - intros Hnot. destruct (detectFieldHighlights oldCases newCases) as [h|e] eqn:Hd.
    + exfalso. apply Hnot. by eapply detect_Ok_events.
    + f_equal. by eapply detect_Throw_TypeError.
  - intros caseNum o n Ho Hn.
    destruct (highlightCase_known _ _ _ _ _ Ho Hn) as (a & Ha & _ & _ & Hix).
    exists a. split; [done|]. split; [|split].
    + intros h Hd. destruct (detect_Ok_known _ _ _ _ _ Hd Hn) as (a' & Ha' & Hh).
      congruence.
    + intros Hev. apply set_eq. intros i. rewrite Hix, Hev. simpl. split.
      * intros (e & He & _). by rewrite lookup_nil in He.
      * intros Hi. by apply not_elem_of_empty in Hi.
    + intros Hev. apply set_eq. intros i. rewrite Hix, Hev, elem_of_set_seq. simpl.
      split.
      * intros (e & He & _). apply lookup_lt_Some in He. lia.
      * intros [_ Hi]. destruct (lookup_lt_is_Some_2 (or_empty (events n)) i) as [e He];
          [lia|]. exists e. split; [done|]. apply not_elem_of_nil.
Qed.

Lemma events_guard_asymmetry_witness :
  detectFieldHighlights ∅ scenario_no_events = Throw TypeError ∧
  ∃ a, highlightCase scenario_prior scenario_no_events "A" = Ok a ∧
       newEventIndices a = ∅.
Proof.
  destruct (events_guard_asymmetry ∅ scenario_no_events) as (_ & Hthrow & _).
  destruct (events_guard_asymmetry scenario_prior scenario_no_events) as (_ & _ & Hknown).
  split.
  - apply Hthrow. intros Hpre.
    destruct (Hpre "A" (sample_case "T1" "T1" None) eq_refl eq_refl) as [evs Hevs].
    discriminate Hevs.
  - destruct (Hknown "A" _ _ eq_refl eq_refl) as (a & Ha & _ & Hnone & _).
    exists a. split; [exact Ha|]. apply Hnone. reflexivity.
Defined.

(** * Properties of the case reconciler *)






(** ** Array.prototype.sort *)

Section Sort.
Context {A : Type} (comparefn : A → A → option Z).

Lemma sorted_insert_Permutation x l : sorted_insert comparefn x l ≡ₚ x :: l.
Proof.
  induction l as [|y l IH]; simpl; [done|].
  case_bool_decide; [|done]. rewrite IH. apply Permutation_swap.
Qed.

Lemma Array_sort_Permutation l : Array_sort comparefn l ≡ₚ l.
Proof.
  induction l as [|x l IH]; simpl; [done|].
  rewrite sorted_insert_Permutation. by rewrite IH.
Qed.

Lemma Array_sort_length l : length (Array_sort comparefn l) = length l.
Proof. by rewrite Array_sort_Permutation. Qed.

End Sort.

Lemma Sorted_adjacent {A : Type} (R : A → A → Prop) (l : list A) :
  Sorted R l → ∀ i a b, l !! i = Some a → l !! S i = Some b → R a b.
Proof.
  induction 1 as [|x l Hs IH Hhd]; intros i a b Ha Hb.
  - by rewrite lookup_nil in Ha.
  - destruct i as [|i]; simpl in Ha, Hb.
    + injection Ha as <-. destruct Hhd as [|y l' Hxy]; [by rewrite lookup_nil in Hb|].
      simpl in Hb. by injection Hb as <-.
    + by eapply IH.
Qed.

Section SortByDate.
Variable Date_time : jsprim → option Z.

Lemma compareEvents_valid a b :
  valid_timestamp Date_time a → valid_timestamp Date_time b →
  ∃ ta tb, Date_time (Event.updatedAtTimestamp a) = Some ta ∧
           Date_time (Event.updatedAtTimestamp b) = Some tb ∧
           SortCompare (compareEvents Date_time) a b = (tb - ta)%Z.
Proof.
  intros [ta Ha] [tb Hb]. exists ta, tb. split; [done|]. split; [done|].
  unfold SortCompare, compareEvents. rewrite Ha, Hb. done.
Qed.

Lemma sorted_insert_HdRel a x l :
  not_before Date_time a x → HdRel (not_before Date_time) a l →
  HdRel (not_before Date_time) a (sorted_insert (compareEvents Date_time) x l).
Proof.
  intros Hax Hhd. destruct l as [|y l]; simpl; [by constructor|].
  case_bool_decide; constructor; [|done]. by inversion Hhd.
Qed.

Lemma sorted_insert_Sorted x l :
  valid_timestamp Date_time x → Forall (valid_timestamp Date_time) l →
  Sorted (not_before Date_time) l →
  Sorted (not_before Date_time) (sorted_insert (compareEvents Date_time) x l).
Proof.
  intros Hx Hl Hs. induction Hs as [|y l Hs IH Hhd]; simpl.
  - repeat constructor.
  - apply Forall_cons in Hl as [Hy Hl].
    destruct (compareEvents_valid x y Hx Hy) as (tx & ty & Htx & Hty & Hcmp).
    rewrite Hcmp. case_bool_decide as Hlt.
    + constructor; [by apply IH|]. apply sorted_insert_HdRel; [|done].
      exists ty, tx. split; [done|]. split; [done|]. lia.
    + constructor; [by constructor|]. constructor.
      exists tx, ty. split; [done|]. split; [done|]. lia.
Qed.

Lemma Array_sort_Sorted l :
  Forall (valid_timestamp Date_time) l →
  Sorted (not_before Date_time) (Array_sort (compareEvents Date_time) l).
Proof.
  induction l as [|x l IH]; intros Hl; simpl; [constructor|].
  apply Forall_cons in Hl as [Hx Hl]. apply sorted_insert_Sorted; [done| |by apply IH].
  by rewrite Array_sort_Permutation.
Qed.

(** The sort is stable: the events of one date keep the order in which the
    payload lists them. *)
Lemma sorted_insert_stable t x l :
  filter (λ e, Date_time (Event.updatedAtTimestamp e) = Some t)
         (sorted_insert (compareEvents Date_time) x l) =
  filter (λ e, Date_time (Event.updatedAtTimestamp e) = Some t) (x :: l).
Proof.
  induction l as [|y l IH]; simpl; [done|].
  case_bool_decide as Hlt; [|done].
  rewrite filter_cons, IH, !filter_cons.
  destruct (decide (Date_time (Event.updatedAtTimestamp y) = Some t)) as [Hy|Hy];
    [|done].
  destruct (decide (Date_time (Event.updatedAtTimestamp x) = Some t)) as [Hx|Hx];
    [|done].
  unfold SortCompare, compareEvents in Hlt. rewrite Hx, Hy in Hlt. simpl in Hlt. lia.
Qed.

Lemma Array_sort_stable t l :
  filter (λ e, Date_time (Event.updatedAtTimestamp e) = Some t)
         (Array_sort (compareEvents Date_time) l) =
  filter (λ e, Date_time (Event.updatedAtTimestamp e) = Some t) l.
Proof.
  induction l as [|x l IH]; simpl; [done|].
  rewrite sorted_insert_stable, !filter_cons. by rewrite IH.
Qed.

(** ** fetchCaseData *)

Lemma mapEvent_Ok r e :
  mapEvent r = Ok e →
  event_key e = raw_key r ∧
  getEventCodeDescription (RawEvent.eventCode r) =
    Ok (match Event.eventDesc e with JString d => d | _ => "" end).
Proof.
  unfold mapEvent. destruct (getEventCodeDescription (RawEvent.eventCode r)) as [d|];
    simpl; [|discriminate]. by intros [= <-].
Qed.

Lemma mapM_mapEvent_keys raw mapped :
  mapM mapEvent raw = Ok mapped → event_key <$> mapped = raw_key <$> raw.
Proof.
  revert mapped. induction raw as [|r raw IH]; intros mapped; simpl.
  - by intros [= <-].
  - destruct (mapEvent r) as [e|] eqn:He; simpl; [|discriminate].
    destruct (mapM mapEvent raw) as [k|] eqn:Hk; simpl; [|discriminate].
    intros [= <-]. rewrite !fmap_cons. f_equal; [|by apply IH].
    by destruct (mapEvent_Ok _ _ He) as [-> _].
Qed.

Lemma mapEvent_string r s :
  RawEvent.eventCode r = JString s → ∃ e, mapEvent r = Ok e.
Proof. intros Hs. unfold mapEvent. rewrite Hs. simpl. by eexists. Qed.

Lemma mapM_mapEvent_total raw :
  Forall (λ r, ∃ s, RawEvent.eventCode r = JString s) raw →
  ∃ mapped, mapM mapEvent raw = Ok mapped.
Proof.
  induction 1 as [|r raw [s Hs] _ [k Hk]]; simpl; [by eexists|].
  destruct (mapEvent_string r s Hs) as [e He]. rewrite He. simpl.
  rewrite Hk. simpl. by eexists.
Qed.

Lemma fetchCaseData_Some caseNumber statusResponse docResponse now rec :
  fetchCaseData Date_time caseNumber statusResponse docResponse now = Some rec →
  ∃ mapped,
    mapM mapEvent (raw_events statusResponse) = Ok mapped ∧
    events rec = Some (Array_sort (compareEvents Date_time) mapped) ∧
    lastFetched rec = JString now.
Proof.
  unfold fetchCaseData. destruct statusResponse as [statusData|]; simpl; [|discriminate].
  destruct docResponse as [documentsData|]; simpl; [|discriminate].
  match goal with |- context [mapM mapEvent ?l] =>
    destruct (mapM mapEvent l) as [mapped|] eqn:Hm end; simpl; [|discriminate].
  intros [= <-]. exists mapped. done.
Qed.

Lemma fetchCaseData_total caseNumber statusData documentsData now :
  Forall (λ r, ∃ s, RawEvent.eventCode r = JString s) (raw_events (Ok statusData)) →
  ∃ rec, fetchCaseData Date_time caseNumber (Ok statusData) (Ok documentsData) now
         = Some rec.
Proof.
  intros Hcodes. destruct (mapM_mapEvent_total _ Hcodes) as [mapped Hm].
  unfold fetchCaseData. simpl. simpl in Hm. rewrite Hm. simpl. by eexists.
Qed.

(** A record that [fetchCaseData] produces carries an events list, so a
    mapping built from such records meets [new_only_have_events]. *)
Lemma fetchCaseData_has_events caseNumber statusResponse docResponse now rec :
  fetchCaseData Date_time caseNumber statusResponse docResponse now = Some rec →
  is_Some (events rec).
Proof.
  intros Hf. destruct (fetchCaseData_Some _ _ _ _ _ Hf) as (mapped & _ & Hev & _).
  by eexists.
Qed.

(** C4, amended.  In every record that [fetchCaseData] produces, the
    events are a rearrangement of the events of the payload, whatever their
    order there, and, when the timestamp of every event is a date, each
    event is at least as recent as the next one of the list. *)
Theorem events_sorted_descending caseNumber statusResponse docResponse now rec :
  fetchCaseData Date_time caseNumber statusResponse docResponse now = Some rec →
  ∃ evs, events rec = Some evs ∧
    event_key <$> evs ≡ₚ raw_key <$> raw_events statusResponse ∧
    (Forall (valid_timestamp Date_time) evs →
     ∀ i e1 e2, evs !! i = Some e1 → evs !! S i = Some e2 →
       not_before Date_time e1 e2).
Proof.
  intros Hf. destruct (fetchCaseData_Some _ _ _ _ _ Hf) as (mapped & Hm & Hev & _).
  eexists. split; [exact Hev|]. split.
  - rewrite Array_sort_Permutation. by rewrite (mapM_mapEvent_keys _ _ Hm).
  - intros Hvalid. apply Sorted_adjacent, Array_sort_Sorted.
    by rewrite <- (Array_sort_Permutation (compareEvents Date_time) mapped).
Qed.

End SortByDate.

Lemma events_sorted_descending_witness :
  ∃ rec evs,
    fetchCaseData sample_Date_time "IOE0912345678" sample_status sample_documents
                  "2024-03-03T09:00:00.000Z" = Some rec ∧
    events rec = Some evs ∧
    event_key <$> evs =
      [(JString "h008", JString "2024-03-02T08:30:00Z");
       (JString "IAF", JString "2024-01-15T10:00:00Z")] ∧
    Forall (valid_timestamp sample_Date_time) evs ∧
    ∀ i e1 e2, evs !! i = Some e1 → evs !! S i = Some e2 →
      not_before sample_Date_time e1 e2.
Proof.
  destruct (fetchCaseData sample_Date_time "IOE0912345678" sample_status sample_documents
                          "2024-03-03T09:00:00.000Z") as [rec|] eqn:Hf;
    [|by vm_compute in Hf].
  destruct (events_sorted_descending _ _ _ _ _ _ Hf) as (evs & Hev & Hperm & Hsorted).
  exists rec, evs. split; [reflexivity|]. split; [exact Hev|].
  assert (Hevs : evs =
    [Event.mk (JString "h008") (JString "Case Approved") (JString "2024-03-02T08:30:00Z");
     Event.mk (JString "IAF") (JString "Receipt letter emailed")
              (JString "2024-01-15T10:00:00Z")]).
  { vm_compute in Hf. injection Hf as <-. simpl in Hev. injection Hev as <-. reflexivity. }
  assert (Hvalid : Forall (valid_timestamp sample_Date_time) evs).
  { rewrite Hevs. repeat constructor; eexists; reflexivity. }
  split; [by rewrite Hevs|]. split; [exact Hvalid|]. exact (Hsorted Hvalid).
Defined.

(** The comparator gives [NaN] for an event whose timestamp is not a date,
    and the sort leaves the events of [untimed_status] where they were: the
    most recent one is the last. *)
Example untimed_events_order :
  ∃ rec evs,
    fetchCaseData sample_Date_time "IOE0912345678" untimed_status sample_documents
                  "2024-03-03T09:00:00.000Z" = Some rec ∧
    events rec = Some evs ∧
    event_key <$> evs =
      [(JString "IAF", JString "2024-01-15T10:00:00Z");
       (JString "IKA", JUndefined);
       (JString "H008", JString "2024-03-02T08:30:00Z")].
Proof. eexists _, _. split; [by vm_compute|]. split; reflexivity. Qed.

(** C4, as stated, fails: the second event of [untimed_status] has no
    timestamp, the record is produced all the same, and its first event is
    not at least as recent as its second. *)
Lemma events_always_descending_fails :
  ¬ events_always_descending sample_Date_time "IOE0912345678" untimed_status
      sample_documents "2024-03-03T09:00:00.000Z".
Proof.
  intros Hdesc.
  destruct (fetchCaseData sample_Date_time "IOE0912345678" untimed_status
              sample_documents "2024-03-03T09:00:00.000Z") as [rec|] eqn:Hf;
    [|by vm_compute in Hf].
  destruct (events rec) as [evs|] eqn:Hev;
    [|vm_compute in Hf; injection Hf as <-; discriminate Hev].
  assert (Hevs : evs =
    [Event.mk (JString "IAF") (JString "Receipt letter emailed")
              (JString "2024-01-15T10:00:00Z");
     Event.mk (JString "IKA") (JString "RFE issued") JUndefined;
     Event.mk (JString "H008") (JString "Case Approved")
              (JString "2024-03-02T08:30:00Z")]).
  { vm_compute in Hf. injection Hf as <-. simpl in Hev. injection Hev as <-. reflexivity. }
  subst evs.
  destruct (Hdesc rec _ 0 _ _ Hf Hev eq_refl eq_refl) as (t1 & t2 & _ & Ht2 & _).
  discriminate Ht2.
Qed.

(** C9, as stated, fails: the record carries the reading of the clock, so
    two passes over one payload at different times give different
    records. *)
Lemma payload_determines_record_fails :
  ¬ payload_determines_record sample_Date_time "IOE0912345678"
      sample_status sample_documents.
Proof.
  intros Hsame.
  specialize (Hsame "2024-03-03T09:00:00.000Z" "2024-03-04T09:00:00.000Z").
  vm_compute in Hsame. discriminate Hsame.
Qed.

(** C9, amended.  Two passes over one payload either both fail or give
    records that agree in every field but [lastFetched], the order of the
    events included; [lastFetched] is the reading of the clock of each
    pass. *)
Theorem reconciliation_deterministic (Date_time : jsprim → option Z)
    caseNumber statusResponse docResponse now1 now2 :
  fetchCaseData Date_time caseNumber statusResponse docResponse now2 =
    with_lastFetched now2 <$>
      fetchCaseData Date_time caseNumber statusResponse docResponse now1 ∧
  (fetchCaseData Date_time caseNumber statusResponse docResponse now1 = None ↔
   fetchCaseData Date_time caseNumber statusResponse docResponse now2 = None) ∧
  ∀ rec1 rec2,
    fetchCaseData Date_time caseNumber statusResponse docResponse now1 = Some rec1 →
    fetchCaseData Date_time caseNumber statusResponse docResponse now2 = Some rec2 →
    agree_but_lastFetched rec1 rec2 ∧
    lastFetched rec1 = JString now1 ∧ lastFetched rec2 = JString now2.
Proof.
  unfold fetchCaseData.
  destruct statusResponse as [statusData|]; simpl; [|by repeat split].
  destruct docResponse as [documentsData|]; simpl; [|by repeat split].
  match goal with |- context [mapM mapEvent ?l] =>
    destruct (mapM mapEvent l) as [mapped|] end; simpl; [|by repeat split].
  split; [done|]. split; [done|]. intros rec1 rec2 [= <-] [= <-].
  unfold agree_but_lastFetched. simpl. by repeat split.
Qed.

Lemma reconciliation_deterministic_witness :
  ∃ rec1 rec2,
    fetchCaseData sample_Date_time "IOE0912345678" sample_status sample_documents
                  "2024-03-03T09:00:00.000Z" = Some rec1 ∧
    fetchCaseData sample_Date_time "IOE0912345678" sample_status sample_documents
                  "2024-03-04T09:00:00.000Z" = Some rec2 ∧
    agree_but_lastFetched rec1 rec2 ∧
    lastFetched rec1 = JString "2024-03-03T09:00:00.000Z" ∧
    lastFetched rec2 = JString "2024-03-04T09:00:00.000Z".
Proof.
  destruct (reconciliation_deterministic sample_Date_time "IOE0912345678"
              sample_status sample_documents
              "2024-03-03T09:00:00.000Z" "2024-03-04T09:00:00.000Z") as (_ & _ & Hagree).
  eexists _, _. split; [reflexivity|]. split; [reflexivity|].
  apply Hagree; reflexivity.
Defined.

(** * Properties of the history store *)

Lemma getHistory_run st :
  getHistory st =
  (match truthy (st !! HISTORY_KEY) with
   | None => Ok (JArray [])
   | Some (Stringified v) => Ok v
   | Some _ => Throw SyntaxError
   end, st).
Proof.
  unfold getHistory, mbind, M_bind, localStorage_getItem. simpl.
  destruct (truthy (st !! HISTORY_KEY)) as [[| |v]|]; reflexivity.
Qed.

Lemma getHistory_storage st : storage_after getHistory st = st.
Proof. unfold storage_after. by rewrite getHistory_run. Qed.

Lemma getHistory_outcome st v :
  outcome getHistory st = Ok v → getHistory st = (Ok v, st).
Proof.
  unfold outcome. rewrite getHistory_run. simpl. by intros ->.
Qed.

Lemma getLastSavedCases_storage st : storage_after getLastSavedCases st = st.
Proof.
  unfold storage_after, getLastSavedCases, mbind, M_bind. rewrite getHistory_run.
  destruct (truthy (st !! HISTORY_KEY)) as [[| |[entries|o|]]|]; simpl; try done.
  - case_bool_decide; simpl.
    + by destruct (last entries).
    + unfold localStorage_getItem.
      destruct (truthy (st !! STORAGE_KEY)) as [[| |[entries'|o'|]]|]; done.
  - unfold localStorage_getItem.
    destruct (truthy (st !! STORAGE_KEY)) as [[| |[entries'|o'|]]|]; done.
  - unfold localStorage_getItem.
    destruct (truthy (st !! STORAGE_KEY)) as [[| |[entries'|o'|]]|]; done.
Qed.

Lemma getLastSavedCases_nonempty st entries s :
  outcome getHistory st = Ok (JArray (entries ++ [s])) →
  outcome getLastSavedCases st = Ok (Snapshot.cases s).
Proof.
  intros Hh. unfold outcome, getLastSavedCases, mbind, M_bind.
  rewrite (getHistory_outcome _ _ Hh). simpl.
  rewrite bool_decide_true by (rewrite length_app; simpl; lia).
  by rewrite last_snoc.
Qed.

Lemma getLastSavedCases_empty st :
  outcome getHistory st = Ok (JArray []) →
  outcome getLastSavedCases st =
  match truthy (st !! STORAGE_KEY) with
  | None => Ok ∅
  | Some (Stringified (JObject o)) => Ok (default ∅ (Latest.cases o))
  | Some (Stringified (JArray _)) => Ok ∅
  | Some (Stringified JNullValue) => Throw TypeError
  | Some _ => Throw SyntaxError
  end.
Proof.
  intros Hh. unfold outcome, getLastSavedCases, mbind, M_bind.
  rewrite (getHistory_outcome _ _ Hh). simpl. unfold localStorage_getItem.
  destruct (truthy (st !! STORAGE_KEY)) as [[| |[entries|o|]]|]; done.
Qed.

Lemma getLastSavedCases_object st o :
  outcome getHistory st = Ok (JObject o) →
  outcome getLastSavedCases st =
  match truthy (st !! STORAGE_KEY) with
  | None => Ok ∅
  | Some (Stringified (JObject o)) => Ok (default ∅ (Latest.cases o))
  | Some (Stringified (JArray _)) => Ok ∅
  | Some (Stringified JNullValue) => Throw TypeError
  | Some _ => Throw SyntaxError
  end.
Proof.
  intros Hh. unfold outcome, getLastSavedCases, mbind, M_bind.
  rewrite (getHistory_outcome _ _ Hh). simpl. unfold localStorage_getItem.
  destruct (truthy (st !! STORAGE_KEY)) as [[| |[entries|o'|]]|]; done.
Qed.

Lemma saveToHistory_run st entries casesData now1 now2 :
  outcome getHistory st = Ok (JArray entries) →
  saveToHistory casesData now1 now2 st =
  (Ok (),
   <[STORAGE_KEY := Stringified (JObject (Latest.mk (Some casesData) (JString now2)))]>
     (<[HISTORY_KEY :=
          Stringified (JArray (entries ++ [Snapshot.mk casesData (JString now1)]))]> st)).
Proof.
  intros Hh. unfold saveToHistory, mbind, M_bind.
  rewrite (getHistory_outcome _ _ Hh). reflexivity.
Qed.

Lemma HISTORY_KEY_STORAGE_KEY : STORAGE_KEY ≠ HISTORY_KEY.
Proof. discriminate. Qed.

Lemma getHistory_after_save st entries casesData now1 now2 :
  outcome getHistory st = Ok (JArray entries) →
  outcome getHistory (storage_after (saveToHistory casesData now1 now2) st) =
  Ok (JArray (entries ++ [Snapshot.mk casesData (JString now1)])).
Proof.
  intros Hh. unfold storage_after. rewrite (saveToHistory_run _ _ _ _ _ Hh). simpl.
  unfold outcome. rewrite getHistory_run. simpl.
  rewrite lookup_insert_ne by apply HISTORY_KEY_STORAGE_KEY.
  by rewrite lookup_insert_eq.
Qed.

Lemma getHistory_after_saves calls st entries :
  outcome getHistory st = Ok (JArray entries) →
  outcome getHistory (saves calls st) = Ok (JArray (entries ++ (snapshot_of <$> calls))).
Proof.
  revert st entries. induction calls as [|call calls IH]; intros st entries Hh; simpl.
  - by rewrite app_nil_r.
  - rewrite (IH _ _ (getHistory_after_save _ _ call.1 call.2.1 call.2.2 Hh)).
    by rewrite <- app_assoc.
Qed.

Lemma clearAllHistory_run st :
  clearAllHistory st = (Ok (), delete STORAGE_KEY (delete HISTORY_KEY st)).
Proof. reflexivity. Qed.

(** C5. When the stored history is an array (the entry may also be absent
    or empty): after [saveToHistory S], [getLastSavedCases] returns exactly
    [S] and the history has one more entry, the snapshot of [S]; after [N]
    consecutive saves on an empty history the stored history has length [N];
    and after [clearAllHistory], in any storage, whatever the two entries
    held, both entries are gone, [getLastSavedCases] returns the empty
    mapping and the history has length 0. *)
Theorem history_append_only :
  (∀ st entries casesData now1 now2,
     outcome getHistory st = Ok (JArray entries) →
     outcome (saveToHistory casesData now1 now2) st = Ok () ∧
     outcome getLastSavedCases
       (storage_after (saveToHistory casesData now1 now2) st) = Ok casesData ∧
     outcome getHistory (storage_after (saveToHistory casesData now1 now2) st) =
       Ok (JArray (entries ++ [Snapshot.mk casesData (JString now1)]))) ∧
  (∀ st calls,
     outcome getHistory st = Ok (JArray []) →
     ∃ entries,
       outcome getHistory (saves calls st) = Ok (JArray entries) ∧
       length entries = length calls ∧
       Snapshot.cases <$> entries = fst <$> calls) ∧
  (∀ st,
     outcome clearAllHistory st = Ok () ∧
     storage_after clearAllHistory st !! HISTORY_KEY = None ∧
     storage_after clearAllHistory st !! STORAGE_KEY = None ∧
     outcome getLastSavedCases (storage_after clearAllHistory st) = Ok ∅ ∧
     outcome getHistory (storage_after clearAllHistory st) = Ok (JArray [])).
Proof.
  split; [|split].
  - intros st entries casesData now1 now2 Hh.
    pose proof (getHistory_after_save _ _ casesData now1 now2 Hh) as Hafter.
    split; [|split; [|done]].
    + unfold outcome. by rewrite (saveToHistory_run _ _ _ _ _ Hh).
    + by rewrite (getLastSavedCases_nonempty _ _ _ Hafter).
  - intros st calls Hh. eexists. split; [by apply getHistory_after_saves|].
    simpl. split; [by rewrite length_fmap|].
    rewrite <- list_fmap_compose. done.
  - intros st. unfold storage_after, outcome. rewrite clearAllHistory_run. simpl.
    assert (Hh : delete STORAGE_KEY (delete HISTORY_KEY st) !! HISTORY_KEY = None).
    { rewrite lookup_delete_ne by apply HISTORY_KEY_STORAGE_KEY. apply lookup_delete_eq. }
    assert (Hs : delete STORAGE_KEY (delete HISTORY_KEY st) !! STORAGE_KEY = None).
    { apply lookup_delete_eq. }
    assert (Hg : outcome getHistory (delete STORAGE_KEY (delete HISTORY_KEY st))
                 = Ok (JArray [])).
    { unfold outcome. rewrite getHistory_run, Hh. done. }
    split; [done|]. split; [done|]. split; [done|]. split; [|done].
    pose proof (getLastSavedCases_empty _ Hg) as Hl. rewrite Hs in Hl. exact Hl.
Qed.

Lemma history_append_only_witness :
  outcome getLastSavedCases
    (storage_after (saveToHistory scenario_new "2024-03-03T09:00:00.000Z"
                                  "2024-03-03T09:00:00.001Z") legacy_only)
  = Ok scenario_new ∧
  (∃ entries,
     outcome getHistory
       (saves [(scenario_prior, ("t1", "t2")); (scenario_new, ("t3", "t4"))] corrupt_legacy)
     = Ok (JArray entries) ∧ length entries = 2) ∧
  outcome getLastSavedCases (storage_after clearAllHistory legacy_only) = Ok ∅.
Proof.
  destruct history_append_only as (Hsave & Hcount & Hclear).
  split; [|split].
  - destruct (Hsave legacy_only [] scenario_new "2024-03-03T09:00:00.000Z"
                    "2024-03-03T09:00:00.001Z") as (_ & Hlatest & _);
      [reflexivity|exact Hlatest].
  - destruct (Hcount corrupt_legacy
                [(scenario_prior, ("t1", "t2")); (scenario_new, ("t3", "t4"))])
      as (entries & Hh & Hlen & _); [reflexivity|].
    exists entries. split; [exact Hh|exact Hlen].
  - destruct (Hclear legacy_only) as (_ & _ & _ & Hlatest & _). exact Hlatest.
Defined.

(** C6. When the history is empty and the entry of the previous format
    holds a snapshot, [getLastSavedCases] returns the cases of that snapshot;
    in every storage, the read leaves the storage as it was. *)
Theorem legacy_snapshot_read_only :
  (∀ st o cases,
     outcome getHistory st = Ok (JArray []) →
     st !! STORAGE_KEY = Some (Stringified (JObject o)) →
     Latest.cases o = Some cases →
     outcome getLastSavedCases st = Ok cases ∧
     storage_after getLastSavedCases st = st) ∧
  (∀ st, storage_after getLastSavedCases st = st) ∧
  (∀ st, storage_after getHistory st = st).
Proof.
  split; [|split; [apply getLastSavedCases_storage|apply getHistory_storage]].
  intros st o cases Hh Hs Hc. split; [|apply getLastSavedCases_storage].
  rewrite (getLastSavedCases_empty _ Hh), Hs. simpl. by rewrite Hc.
Qed.

Lemma legacy_snapshot_read_only_witness :
  outcome getLastSavedCases legacy_only = Ok scenario_prior ∧
  storage_after getLastSavedCases legacy_only = legacy_only.
Proof.
  destruct legacy_snapshot_read_only as (Hlegacy & _ & _).
  apply (Hlegacy legacy_only
           (Latest.mk (Some scenario_prior) (JString "2024-02-01T00:00:00.000Z")));
    reflexivity.
Defined.

(** C7, as stated, fails: with an unparseable text under the history key
    the read raises a [SyntaxError]. *)
Lemma corrupt_read_is_empty_fails : ¬ corrupt_read_is_empty.
Proof.
  intros Hclaim. specialize (Hclaim corrupt_history (or_introl eq_refl)).
  vm_compute in Hclaim. discriminate Hclaim.
Qed.

(** C7, amended.  [getLastSavedCases] raises a [SyntaxError] when the text
    under the history key is unparseable, and a [TypeError] when it is
    [null]; it returns the cases of the last snapshot when the history is a
    non-empty array.  When the history is empty (its entry absent, the empty
    text or an empty array) the entry of the previous format is read, and an
    object under the history key is read as an empty history: the read then
    raises a [SyntaxError] when that entry is unparseable and a [TypeError]
    when it is [null], and gives the empty mapping when it is absent, the
    empty text, an array or an object without cases.  Nothing is written. *)
Theorem corrupt_read_raises st :
  (st !! HISTORY_KEY = Some Unparseable →
   outcome getLastSavedCases st = Throw SyntaxError) ∧
  (outcome getHistory st = Ok (JArray []) → st !! STORAGE_KEY = Some Unparseable →
   outcome getLastSavedCases st = Throw SyntaxError) ∧
  (truthy (st !! HISTORY_KEY) = None → outcome getHistory st = Ok (JArray [])) ∧
  (outcome getHistory st = Ok (JArray []) → truthy (st !! STORAGE_KEY) = None →
   outcome getLastSavedCases st = Ok ∅) ∧
  (∀ o, outcome getHistory st = Ok (JArray []) →
        st !! STORAGE_KEY = Some (Stringified (JObject o)) → Latest.cases o = None →
        outcome getLastSavedCases st = Ok ∅) ∧
  (st !! HISTORY_KEY = Some (Stringified JNullValue) →
   outcome getLastSavedCases st = Throw TypeError) ∧
  (∀ o, st !! HISTORY_KEY = Some (Stringified (JObject o)) →
        outcome getLastSavedCases st =
        outcome getLastSavedCases (delete HISTORY_KEY st)) ∧
  (∀ entries s, st !! HISTORY_KEY = Some (Stringified (JArray (entries ++ [s]))) →
        outcome getLastSavedCases st = Ok (Snapshot.cases s)) ∧
  (outcome getHistory st = Ok (JArray []) →
   st !! STORAGE_KEY = Some (Stringified JNullValue) →
   outcome getLastSavedCases st = Throw TypeError) ∧
  (∀ entries, outcome getHistory st = Ok (JArray []) →
        st !! STORAGE_KEY = Some (Stringified (JArray entries)) →
        outcome getLastSavedCases st = Ok ∅) ∧
  storage_after getLastSavedCases st = st.
Proof.
  repeat lazymatch goal with |- _ ∧ _ => split end.
  - intros Hbad. unfold outcome, getLastSavedCases, mbind, M_bind.
    rewrite getHistory_run, Hbad. done.
  - intros Hh Hbad. by rewrite (getLastSavedCases_empty _ Hh), Hbad.
  - intros Hnone. unfold outcome. by rewrite getHistory_run, Hnone.
  - intros Hh Hnone. by rewrite (getLastSavedCases_empty _ Hh), Hnone.
  - intros o Hh Hs Hc. rewrite (getLastSavedCases_empty _ Hh), Hs. simpl. by rewrite Hc.
  - intros Hnull. unfold outcome, getLastSavedCases, mbind, M_bind.
    rewrite getHistory_run, Hnull. done.
  - intros o Ho.
    assert (Hh : outcome getHistory st = Ok (JObject o)).
    { unfold outcome. by rewrite getHistory_run, Ho. }
    assert (Hd : outcome getHistory (delete HISTORY_KEY st) = Ok (JArray [])).
    { unfold outcome. by rewrite getHistory_run, lookup_delete_eq. }
    rewrite (getLastSavedCases_object _ _ Hh), (getLastSavedCases_empty _ Hd).
    rewrite lookup_delete_ne; [done|]. intros Heq. by apply HISTORY_KEY_STORAGE_KEY.
  - intros entries s Hs. apply getLastSavedCases_nonempty with entries.
    unfold outcome. by rewrite getHistory_run, Hs.
  - intros Hh Hnull. by rewrite (getLastSavedCases_empty _ Hh), Hnull.
  - intros entries Hh Hs. by rewrite (getLastSavedCases_empty _ Hh), Hs.
  - apply getLastSavedCases_storage.
Qed.

Lemma corrupt_read_raises_witness :
  outcome getLastSavedCases corrupt_history = Throw SyntaxError ∧
  outcome getLastSavedCases corrupt_legacy = Throw SyntaxError ∧
  outcome getLastSavedCases ∅ = Ok ∅ ∧
  outcome getLastSavedCases {[ HISTORY_KEY := Stringified JNullValue ]} =
    Throw TypeError ∧
  outcome getLastSavedCases {[ STORAGE_KEY := Stringified JNullValue ]} =
    Throw TypeError ∧
  outcome getLastSavedCases
    {[ HISTORY_KEY := Stringified (JArray ([] ++ [Snapshot.mk ∅ (JString "t1")])) ]} =
    Ok ∅.
Proof.
  split; [|split; [|split; [|split; [|split]]]].
  - destruct (corrupt_read_raises corrupt_history) as (Hbad & _). apply Hbad. reflexivity.
  - destruct (corrupt_read_raises corrupt_legacy) as (_ & Hbad & _).
    apply Hbad; reflexivity.
  - destruct (corrupt_read_raises ∅) as (_ & _ & _ & Hnone & _). apply Hnone; reflexivity.
  - destruct (corrupt_read_raises {[ HISTORY_KEY := Stringified JNullValue ]})
      as (_ & _ & _ & _ & _ & Hnull & _).
    apply Hnull. reflexivity.
  - destruct (corrupt_read_raises {[ STORAGE_KEY := Stringified JNullValue ]})
      as (_ & _ & _ & _ & _ & _ & _ & _ & Hnull & _).
    apply Hnull; reflexivity.
  - destruct (corrupt_read_raises
                {[ HISTORY_KEY :=
                     Stringified (JArray ([] ++ [Snapshot.mk ∅ (JString "t1")])) ]})
      as (_ & _ & _ & _ & _ & _ & _ & Hlast & _).
    apply (Hlast [] (Snapshot.mk ∅ (JString "t1"))). reflexivity.
Defined.

(** * The scenarios of the design document *)

(** Case [A] gains the event [H008]: not new, changed, index 0 marked. *)
Example scenario_annotation :
  ∃ h a, detectFieldHighlights scenario_prior scenario_new = Ok h ∧
         h !! "A" = Some a ∧
         isNew a = false ∧ updatedAtChanged a = true ∧
         elements (newEventIndices a) = [0].
Proof. eexists _, _. repeat split; by vm_compute. Qed.

(** The same mapping on both sides: nothing changed, nothing marked. *)
Example scenario_unchanged :
  ∃ h a, detectFieldHighlights scenario_new scenario_new = Ok h ∧
         h !! "A" = Some a ∧
         isNew a = false ∧ updatedAtChanged a = false ∧
         elements (newEventIndices a) = [].
Proof. eexists _, _. repeat split; by vm_compute. Qed.

(** The two colliding events have one template key, and the index of the
    new one is not marked. *)
Example colliding_keys :
  eventKey (sample_event "A_B" "C") = "A_B_C" ∧
  eventKey (sample_event "A" "B_C") = "A_B_C" ∧
  ∃ h a, detectFieldHighlights colliding_prior colliding_new = Ok h ∧
         h !! "A" = Some a ∧ elements (newEventIndices a) = [].
Proof. split; [done|]. split; [done|]. eexists _, _. repeat split; by vm_compute. Qed.

(** A code that is not a string raises. *)
Example getEventCodeDescription_undefined :
  getEventCodeDescription JUndefined = Throw TypeError.
Proof. reflexivity. Qed.

(** Saving over an unparseable history raises and writes nothing. *)
Example saveToHistory_corrupt :
  saveToHistory scenario_new "t1" "t2" corrupt_history = (Throw SyntaxError, corrupt_history).
Proof. reflexivity. Qed.

(** * Further properties of the diff engine *)

Lemma new_only_have_events_known oldCases newCases :
  (∀ caseNum n, newCases !! caseNum = Some n → is_Some (oldCases !! caseNum)) →
  new_only_have_events oldCases newCases.
Proof.
  intros Hknown caseNum n Hn Ho. destruct (Hknown _ _ Hn) as [o Ho']. congruence.
Qed.

(** X1. The result annotates the ids of [newCases] and no other: an id that
    only [oldCases] has (a case that disappeared) gets no annotation, and no
    id of [newCases] is left out. *)
Theorem highlights_cover_new_cases oldCases newCases :
  new_only_have_events oldCases newCases →
  ∃ h, detectFieldHighlights oldCases newCases = Ok h ∧
       dom h = dom newCases ∧
       ∀ caseNum, newCases !! caseNum = None → h !! caseNum = None.
Proof.
  intros Hpre. destruct (detect_total_events _ _ Hpre) as [h Hd].
  exists h. split; [done|]. split; [|intros k Hk; by eapply detect_Ok_unknown].
  apply set_eq. intros k. rewrite !elem_of_dom. split.
  - intros [a Ha]. destruct (newCases !! k) as [n|] eqn:Hn; [by eexists|].
    rewrite (detect_Ok_unknown _ _ _ _ Hd Hn) in Ha. discriminate.
  - intros [n Hn]. destruct (detect_Ok_known _ _ _ _ _ Hd Hn) as (a & _ & Ha).
    by eexists.
Qed.

Lemma highlights_cover_new_cases_witness :
  ∃ h, detectFieldHighlights scenario_prior colliding_new = Ok h ∧
       dom h = dom colliding_new ∧ h !! "B" = None.
Proof.
  assert (Hpre : new_only_have_events scenario_prior colliding_new).
  { apply new_only_have_events_known. intros caseNum n Hn. unfold colliding_new in Hn.
    apply lookup_singleton_Some in Hn as [<- _]. by eexists. }
  destruct (highlights_cover_new_cases scenario_prior colliding_new Hpre)
    as (h & Hd & Hdom & Hnone).
  exists h. split; [exact Hd|]. split; [exact Hdom|]. apply Hnone. reflexivity.
Defined.

Lemma detect_nothing_new oldCases newCases :
  (∀ caseNum n, newCases !! caseNum = Some n →
     ∃ o, oldCases !! caseNum = Some o ∧ nothing_new o n) →
  ∃ h, detectFieldHighlights oldCases newCases = Ok h ∧
       ∀ caseNum a, h !! caseNum = Some a → no_highlight a ∧ hasChange a = false.
Proof.
  intros Hsame.
  assert (Hpre : new_only_have_events oldCases newCases).
  { apply new_only_have_events_known. intros k n Hn.
    destruct (Hsame _ _ Hn) as (o & Ho & _). by eexists. }
  destruct (detect_total_events _ _ Hpre) as [h Hd]. exists h. split; [done|].
  intros k a Ha. destruct (newCases !! k) as [n|] eqn:Hn.
  2:{ rewrite (detect_Ok_unknown _ _ _ _ Hd Hn) in Ha. discriminate. }
  destruct (Hsame _ _ Hn) as (o & Ho & Hu & Ht & Hev).
  destruct (detect_Ok_known _ _ _ _ _ Hd Hn) as (a' & Ha' & Hh).
  destruct (highlightCase_known _ _ _ _ _ Ho Hn) as (a'' & Ha'' & Hnew & Hch & Hix).
  assert (a = a'') as -> by congruence.
  assert (Hempty : newEventIndices a'' = ∅).
  { apply set_eq. intros i. rewrite Hix. split.
    - intros (e & He & Hk). exfalso. apply Hk, Hev. by eapply list_elem_of_lookup_2.
    - intros Hi. by apply not_elem_of_empty in Hi. }
  assert (Hflag : updatedAtChanged a'' = false).
  { rewrite Hch, Hu, Ht. unfold strict_neq.
    rewrite !bool_decide_false by (intros Hne; by apply Hne). done. }
  split; [done|]. unfold hasChange. rewrite Hnew, Hflag, Hempty. done.
Qed.

(** X2. When every record of [newCases] is known to [oldCases] with the same
    two update markers and brings no event key that the prior record lacks,
    the call returns and no annotation flags anything; so it is when the two
    mappings are the same, whatever they hold. *)
Theorem unchanged_cases_not_highlighted :
  (∀ oldCases newCases,
     (∀ caseNum n, newCases !! caseNum = Some n →
        ∃ o, oldCases !! caseNum = Some o ∧ nothing_new o n) →
     ∃ h, detectFieldHighlights oldCases newCases = Ok h ∧
          ∀ caseNum a, h !! caseNum = Some a → no_highlight a ∧ hasChange a = false) ∧
  (∀ cases,
     ∃ h, detectFieldHighlights cases cases = Ok h ∧
          ∀ caseNum a, h !! caseNum = Some a → no_highlight a ∧ hasChange a = false).
Proof.
  split; [exact detect_nothing_new|]. intros cases. apply detect_nothing_new.
  intros k n Hn. exists n.
  split; [done|]. split; [done|]. split; [done|]. intros e He.
  by apply list_elem_of_fmap_2.
Qed.

Lemma unchanged_cases_not_highlighted_witness :
  ∃ h, detectFieldHighlights scenario_prior scenario_no_events = Ok h ∧
       ∀ caseNum a, h !! caseNum = Some a → no_highlight a ∧ hasChange a = false.
Proof.
  destruct unchanged_cases_not_highlighted as [Hgen _].
  apply (Hgen scenario_prior scenario_no_events). intros caseNum n Hn.
  unfold scenario_no_events in Hn. apply lookup_singleton_Some in Hn as [<- <-].
  eexists. split; [reflexivity|]. split; [reflexivity|]. split; [reflexivity|].
  intros e He. simpl in He. by apply elem_of_nil in He.
Defined.

(** X3. Every index that the result marks is a position of the events of
    the new record. *)
Theorem marked_indices_in_range oldCases newCases :
  new_only_have_events oldCases newCases →
  ∃ h, detectFieldHighlights oldCases newCases = Ok h ∧
    ∀ caseNum n a i, newCases !! caseNum = Some n → h !! caseNum = Some a →
      i ∈ newEventIndices a → i < length (or_empty (events n)).
Proof.
  intros Hpre. destruct (detect_total_events _ _ Hpre) as [h Hd].
  exists h. split; [done|]. intros k n a i Hn Ha Hi.
  destruct (detect_Ok_known _ _ _ _ _ Hd Hn) as (a' & Ha' & Hh).
  assert (a' = a) as -> by congruence.
  destruct (oldCases !! k) as [o|] eqn:Ho.
  - destruct (highlightCase_known _ _ _ _ _ Ho Hn) as (a'' & Ha'' & _ & _ & Hix).
    assert (a = a'') as -> by congruence.
    apply Hix in Hi as (e & He & _). by eapply lookup_lt_Some.
  - destruct (Hpre _ _ Hn Ho) as [evs Hev].
    destruct (highlightCase_new _ _ _ _ _ Ho Hn Hev) as (a'' & Ha'' & _ & _ & Hix).
    assert (a = a'') as -> by congruence.
    rewrite Hix, elem_of_set_seq in Hi. rewrite Hev. simpl. lia.
Qed.

Lemma marked_indices_in_range_witness :
  ∃ h, detectFieldHighlights scenario_prior scenario_new = Ok h ∧
    ∀ a i, h !! "A" = Some a → i ∈ newEventIndices a → i < 2.
Proof.
  assert (Hpre : new_only_have_events scenario_prior scenario_new).
  { apply new_only_have_events_known. intros caseNum n Hn. unfold scenario_new in Hn.
    apply lookup_singleton_Some in Hn as [<- _]. by eexists. }
  destruct (marked_indices_in_range scenario_prior scenario_new Hpre) as (h & Hd & Hin).
  exists h. split; [exact Hd|]. intros a i Ha Hi.
  exact (Hin "A" _ a i eq_refl Ha Hi).
Defined.

(** X4. When the events of the new record are a run of events whose keys
    the prior record lacks, followed by events whose keys it has, the marked
    indices are those of the run: [0 .. length fresh - 1]. *)
Theorem prepended_events_marked oldCases newCases :
  new_only_have_events oldCases newCases →
  ∃ h, detectFieldHighlights oldCases newCases = Ok h ∧
    ∀ caseNum o n fresh kept,
      oldCases !! caseNum = Some o → newCases !! caseNum = Some n →
      or_empty (events n) = (fresh ++ kept)%list →
      (∀ e, e ∈ fresh → eventKey e ∉ eventKey <$> or_empty (events o)) →
      (∀ e, e ∈ kept → eventKey e ∈ eventKey <$> or_empty (events o)) →
      ∃ a, h !! caseNum = Some a ∧ newEventIndices a = set_seq 0 (length fresh).
Proof.
  intros Hpre. destruct (detect_total_events _ _ Hpre) as [h Hd].
  exists h. split; [done|]. intros k o n fresh kept Ho Hn Hsplit Hfresh Hkept.
  destruct (detect_Ok_known _ _ _ _ _ Hd Hn) as (a & Ha & Hh).
  destruct (highlightCase_known _ _ _ _ _ Ho Hn) as (a' & Ha' & _ & _ & Hix).
  assert (a = a') as -> by congruence.
  exists a'. split; [done|]. apply set_eq. intros i.
  rewrite Hix, Hsplit, elem_of_set_seq. split.
  - intros (e & He & Hk). split; [lia|]. simpl.
    destruct (decide (i < length fresh)) as [Hlt|Hge]; [done|].
    rewrite lookup_app_r in He by lia. exfalso. apply Hk, Hkept.
    by eapply list_elem_of_lookup_2.
  - intros [_ Hi]. simpl in Hi.
    destruct (lookup_lt_is_Some_2 fresh i Hi) as [e He]. exists e.
    split; [by rewrite lookup_app_l|]. apply Hfresh. by eapply list_elem_of_lookup_2.
Qed.

Lemma prepended_events_marked_witness :
  ∃ h a, detectFieldHighlights scenario_prior scenario_new = Ok h ∧
         h !! "A" = Some a ∧ newEventIndices a = set_seq 0 1.
Proof.
  assert (Hpre : new_only_have_events scenario_prior scenario_new).
  { apply new_only_have_events_known. intros caseNum n Hn. unfold scenario_new in Hn.
    apply lookup_singleton_Some in Hn as [<- _]. by eexists. }
  destruct (prepended_events_marked scenario_prior scenario_new Hpre) as (h & Hd & Hrun).
  destruct (Hrun "A" _ _ [sample_event "H008" "T2"] [sample_event "IAF" "T1"]
              eq_refl eq_refl eq_refl) as (a & Ha & Hix).
  - intros e He. apply list_elem_of_singleton in He as ->. simpl.
    intros Hin. apply list_elem_of_singleton in Hin. discriminate Hin.
  - intros e He. apply list_elem_of_singleton in He as ->. simpl.
    apply list_elem_of_singleton. reflexivity.
  - exists h, a. split; [exact Hd|]. split; [exact Ha|exact Hix].
Defined.

(** * Further properties of the history store *)

Lemma getStoredData_run st :
  getStoredData st =
  (match truthy (st !! STORAGE_KEY) with
   | None => Ok (JObject (Latest.mk (Some ∅) JNull))
   | Some (Stringified v) => Ok v
   | Some _ => Throw SyntaxError
   end, st).
Proof.
  unfold getStoredData, mbind, M_bind, localStorage_getItem. simpl.
  destruct (truthy (st !! STORAGE_KEY)) as [[| |v]|]; reflexivity.
Qed.

Lemma saveToHistory_raises st casesData now1 now2 e :
  outcome getHistory st = Throw e →
  saveToHistory casesData now1 now2 st = (Throw e, st).
Proof.
  unfold outcome. rewrite getHistory_run. simpl. intros He.
  unfold saveToHistory, mbind, M_bind. rewrite getHistory_run. simpl.
  by rewrite He.
Qed.

Lemma saveToHistory_object st casesData now1 now2 o :
  outcome getHistory st = Ok (JObject o) →
  saveToHistory casesData now1 now2 st = (Throw TypeError, st).
Proof.
  intros Hh. unfold saveToHistory, mbind, M_bind.
  rewrite (getHistory_outcome _ _ Hh). reflexivity.
Qed.

Lemma saveToHistory_null st casesData now1 now2 :
  outcome getHistory st = Ok JNullValue →
  saveToHistory casesData now1 now2 st = (Throw TypeError, st).
Proof.
  intros Hh. unfold saveToHistory, mbind, M_bind.
  rewrite (getHistory_outcome _ _ Hh). reflexivity.
Qed.

Lemma saveToHistory_outcomes st casesData now1 now2 :
  (∃ entries, outcome getHistory st = Ok (JArray entries)) ∨
  saveToHistory casesData now1 now2 st = (Throw TypeError, st) ∨
  saveToHistory casesData now1 now2 st = (Throw SyntaxError, st).
Proof.
  destruct (outcome getHistory st) as [[entries|o|]|e] eqn:Hh.
  - left. by eexists.
  - right. left. by eapply saveToHistory_object.
  - right. left. by apply saveToHistory_null.
  - right. right. rewrite (saveToHistory_raises _ _ _ _ _ Hh).
    unfold outcome in Hh. rewrite getHistory_run in Hh. simpl in Hh.
    destruct (truthy (st !! HISTORY_KEY)) as [[| |v]|]; congruence.
Qed.

(** X5. After a save both entries of the storage hold the cases just
    saved: the last snapshot of the history, stamped with the first reading
    of the clock, and the object under [STORAGE_KEY], which [getStoredData]
    of version 0.4 reads back with the second reading of the clock. *)
Theorem save_keeps_entries_consistent st entries casesData now1 now2 :
  outcome getHistory st = Ok (JArray entries) →
  outcome getStoredData (storage_after (saveToHistory casesData now1 now2) st) =
    Ok (JObject (Latest.mk (Some casesData) (JString now2))) ∧
  ∃ s, outcome getHistory (storage_after (saveToHistory casesData now1 now2) st) =
         Ok (JArray (entries ++ [s])) ∧
       Snapshot.cases s = casesData ∧ Snapshot.savedAt s = JString now1.
Proof.
  intros Hh. split.
  - unfold storage_after. rewrite (saveToHistory_run _ _ _ _ _ Hh). simpl.
    unfold outcome. rewrite getStoredData_run. simpl. by rewrite lookup_insert_eq.
  - eexists. split; [by apply getHistory_after_save|]. done.
Qed.

Lemma save_keeps_entries_consistent_witness :
  outcome getStoredData (storage_after (saveToHistory scenario_new "t1" "t2") corrupt_legacy)
  = Ok (JObject (Latest.mk (Some scenario_new) (JString "t2"))).
Proof.
  destruct (save_keeps_entries_consistent corrupt_legacy [] scenario_new "t1" "t2")
    as [Hstored _]; [reflexivity|exact Hstored].
Defined.

(** X6. A save reads the history before it writes.  Over an unparseable
    history it raises a [SyntaxError], over a history that is an object or
    [null] a [TypeError], and in each of these cases nothing has been
    written, the entry under [STORAGE_KEY] included: an error of the read
    is the error of the save, with the storage as it was.  A save that
    succeeds had a history that reads as an array. *)
Theorem saveToHistory_failure st casesData now1 now2 :
  (st !! HISTORY_KEY = Some Unparseable →
   saveToHistory casesData now1 now2 st = (Throw SyntaxError, st)) ∧
  (∀ o, st !! HISTORY_KEY = Some (Stringified (JObject o)) →
   saveToHistory casesData now1 now2 st = (Throw TypeError, st)) ∧
  (st !! HISTORY_KEY = Some (Stringified JNullValue) →
   saveToHistory casesData now1 now2 st = (Throw TypeError, st)) ∧
  (∀ e, outcome getHistory st = Throw e →
   saveToHistory casesData now1 now2 st = (Throw e, st)) ∧
  (outcome (saveToHistory casesData now1 now2) st = Ok () →
   ∃ entries, outcome getHistory st = Ok (JArray entries)).
Proof.
  split; [|split; [|split; [|split]]].
  - intros Hbad. apply saveToHistory_raises. unfold outcome.
    by rewrite getHistory_run, Hbad.
  - intros o Hobj. apply (saveToHistory_object _ _ _ _ o). unfold outcome.
    by rewrite getHistory_run, Hobj.
  - intros Hnull. apply saveToHistory_null. unfold outcome.
    by rewrite getHistory_run, Hnull.
  - intros e He. by apply saveToHistory_raises.
  - intros Hok.
    destruct (saveToHistory_outcomes st casesData now1 now2) as [?|[Hs|Hs]]; [done| |];
      unfold outcome in Hok; rewrite Hs in Hok; discriminate.
Qed.

Lemma saveToHistory_failure_witness :
  saveToHistory scenario_new "t1" "t2" corrupt_history = (Throw SyntaxError, corrupt_history) ∧
  saveToHistory scenario_new "t1" "t2" {[ HISTORY_KEY := Stringified JNullValue ]} =
    (Throw TypeError, {[ HISTORY_KEY := Stringified JNullValue ]}) ∧
  ∃ entries, outcome getHistory legacy_only = Ok (JArray entries).
Proof.
  split; [|split].
  - destruct (saveToHistory_failure corrupt_history scenario_new "t1" "t2")
      as (Hbad & _).
    apply Hbad; reflexivity.
  - destruct (saveToHistory_failure {[ HISTORY_KEY := Stringified JNullValue ]}
                scenario_new "t1" "t2") as (_ & _ & Hnull & _).
    apply Hnull; reflexivity.
  - destruct (saveToHistory_failure legacy_only scenario_new "t1" "t2")
      as (_ & _ & _ & _ & Hok).
    apply Hok. reflexivity.
Defined.

(** X7. A save and a clear touch the two keys of the script only: every
    other key of the storage keeps what it held. *)
Theorem other_keys_untouched st key casesData now1 now2 :
  key ≠ HISTORY_KEY → key ≠ STORAGE_KEY →
  storage_after (saveToHistory casesData now1 now2) st !! key = st !! key ∧
  storage_after clearAllHistory st !! key = st !! key.
Proof.
  intros Hh Hs. split.
  - unfold storage_after.
    destruct (saveToHistory_outcomes st casesData now1 now2) as [[entries Hent]|[Hr|Hr]].
    + rewrite (saveToHistory_run _ _ _ _ _ Hent). simpl.
      rewrite lookup_insert_ne by done. by rewrite lookup_insert_ne.
    + by rewrite Hr.
    + by rewrite Hr.
  - unfold storage_after. rewrite clearAllHistory_run. simpl.
    rewrite lookup_delete_ne by done. by rewrite lookup_delete_ne.
Qed.

Lemma other_keys_untouched_witness :
  storage_after (saveToHistory scenario_new "t1" "t2")
    (<["theme" := Unparseable]> legacy_only) !! "theme" = Some Unparseable.
Proof.
  destruct (other_keys_untouched (<["theme" := Unparseable]> legacy_only) "theme"
              scenario_new "t1" "t2") as [Hsave _]; [discriminate|discriminate|].
  rewrite Hsave. reflexivity.
Defined.

(** X8. Clearing repairs any storage: after [clearAllHistory], whatever
    the two entries held, a save succeeds, the history is the one snapshot
    just saved and the latest cases are the cases saved. *)
Theorem clear_then_save st casesData now1 now2 :
  outcome (_ ← clearAllHistory; saveToHistory casesData now1 now2) st = Ok () ∧
  outcome getHistory
    (storage_after (saveToHistory casesData now1 now2) (storage_after clearAllHistory st))
  = Ok (JArray [Snapshot.mk casesData (JString now1)]) ∧
  outcome getLastSavedCases
    (storage_after (saveToHistory casesData now1 now2) (storage_after clearAllHistory st))
  = Ok casesData.
Proof.
  assert (Hh : outcome getHistory (storage_after clearAllHistory st) = Ok (JArray [])).
  { unfold storage_after, outcome. rewrite clearAllHistory_run, getHistory_run. simpl.
    rewrite lookup_delete_ne by apply HISTORY_KEY_STORAGE_KEY.
    by rewrite lookup_delete_eq. }
  pose proof (getHistory_after_save _ _ casesData now1 now2 Hh) as Hafter.
  split; [|split; [exact Hafter|]].
  - unfold outcome, mbind, M_bind. rewrite clearAllHistory_run.
    unfold storage_after in Hh. rewrite clearAllHistory_run in Hh. simpl in Hh.
    by rewrite (saveToHistory_run _ _ _ _ _ Hh).
  - by rewrite (getLastSavedCases_nonempty _ [] _ Hafter).
Qed.

(** X9. A history that is not empty takes precedence: the latest cases are
    those of its last snapshot whatever the entry under [STORAGE_KEY] holds,
    be it absent, unparseable or another snapshot. *)
Theorem history_takes_precedence st entries s :
  outcome getHistory st = Ok (JArray (entries ++ [s])) →
  outcome getLastSavedCases st = Ok (Snapshot.cases s) ∧
  (∀ legacy, outcome getLastSavedCases (<[STORAGE_KEY := legacy]> st)
             = Ok (Snapshot.cases s)) ∧
  outcome getLastSavedCases (delete STORAGE_KEY st) = Ok (Snapshot.cases s).
Proof.
  intros Hh. split; [by eapply getLastSavedCases_nonempty|]. split.
  - intros legacy. apply (getLastSavedCases_nonempty _ entries).
    unfold outcome in *. rewrite getHistory_run in *. simpl in *.
    by rewrite lookup_insert_ne by apply HISTORY_KEY_STORAGE_KEY.
  - apply (getLastSavedCases_nonempty _ entries).
    unfold outcome in *. rewrite getHistory_run in *. simpl in *.
    by rewrite lookup_delete_ne by apply HISTORY_KEY_STORAGE_KEY.
Qed.

Lemma history_takes_precedence_witness :
  outcome getLastSavedCases
    (<[STORAGE_KEY := Unparseable]>
       (storage_after (saveToHistory scenario_new "t1" "t2") ∅))
  = Ok scenario_new.
Proof.
  destruct (history_takes_precedence
              (storage_after (saveToHistory scenario_new "t1" "t2") ∅) []
              (Snapshot.mk scenario_new (JString "t1"))) as (_ & Hany & _);
    [reflexivity|]. exact (Hany Unparseable).
Defined.

(** X10. Upgrade from version 0.4: on a storage where version 0.4 wrote its
    snapshot and no history exists, the latest cases are those of that
    snapshot; the first save of version 0.5 starts the history with the new
    snapshot alone (the snapshot of version 0.4 is not copied into it) and
    replaces the entry under [STORAGE_KEY]. *)
Theorem upgrade_from_v04 st oldData now casesData now1 now2 :
  truthy (st !! HISTORY_KEY) = None →
  outcome getLastSavedCases (storage_after (storeLatest oldData now) st) = Ok oldData ∧
  outcome getHistory
    (storage_after (saveToHistory casesData now1 now2)
                   (storage_after (storeLatest oldData now) st))
  = Ok (JArray [Snapshot.mk casesData (JString now1)]) ∧
  outcome getStoredData
    (storage_after (saveToHistory casesData now1 now2)
                   (storage_after (storeLatest oldData now) st))
  = Ok (JObject (Latest.mk (Some casesData) (JString now2))).
Proof.
  intros Hnone.
  assert (Hh : outcome getHistory (storage_after (storeLatest oldData now) st)
               = Ok (JArray [])).
  { unfold storage_after, storeLatest, localStorage_setItem, outcome. simpl.
    rewrite getHistory_run. simpl.
    rewrite lookup_insert_ne by apply HISTORY_KEY_STORAGE_KEY. by rewrite Hnone. }
  split; [|split].
  - rewrite (getLastSavedCases_empty _ Hh).
    unfold storage_after, storeLatest, localStorage_setItem. simpl.
    by rewrite lookup_insert_eq.
  - by rewrite (getHistory_after_save _ _ casesData now1 now2 Hh).
  - unfold storage_after at 1. rewrite (saveToHistory_run _ _ _ _ _ Hh). simpl.
    unfold outcome. rewrite getStoredData_run. simpl. by rewrite lookup_insert_eq.
Qed.

Lemma upgrade_from_v04_witness :
  outcome getLastSavedCases (storage_after (storeLatest scenario_prior "t0") ∅)
  = Ok scenario_prior ∧
  outcome getHistory
    (storage_after (saveToHistory scenario_new "t1" "t2")
                   (storage_after (storeLatest scenario_prior "t0") ∅))
  = Ok (JArray [Snapshot.mk scenario_new (JString "t1")]).
Proof.
  destruct (upgrade_from_v04 ∅ scenario_prior "t0" scenario_new "t1" "t2")
    as (Hlatest & Hhist & _); [reflexivity|].
  split; [exact Hlatest|exact Hhist].
Defined.

(** * Further properties of the case reconciler *)

Section ReconcilerFurther.
Variable Date_time : jsprim → option Z.

Lemma mapEvent_inv r e :
  mapEvent r = Ok e →
  ∃ s, RawEvent.eventCode r = JString s ∧
       e = Event.mk (JString s)
             (JString (default "Unknown" (EVENT_CODES !! toUpperCase s)))
             (RawEvent.updatedAtTimestamp r).
Proof.
  unfold mapEvent. destruct (RawEvent.eventCode r) as [| |b|s] eqn:Hc; simpl;
    try discriminate.
  intros [= <-]. by exists s.
Qed.

Lemma mapM_mapEvent_Forall2 raw mapped :
  mapM mapEvent raw = Ok mapped → Forall2 (λ r e, mapEvent r = Ok e) raw mapped.
Proof.
  revert mapped. induction raw as [|r raw IH]; intros mapped; simpl.
  - intros [= <-]. constructor.
  - destruct (mapEvent r) as [e|] eqn:He; simpl; [|discriminate].
    destruct (mapM mapEvent raw) as [k|] eqn:Hk; simpl; [|discriminate].
    intros [= <-]. constructor; [done|]. by apply IH.
Qed.

Lemma fetchCaseData_inv caseNum statusResponse docResponse now rec :
  fetchCaseData Date_time caseNum statusResponse docResponse now = Some rec →
  ∃ statusData documentsData mapped,
    statusResponse = Ok statusData ∧ docResponse = Ok documentsData ∧
    mapM mapEvent (raw_events statusResponse) = Ok mapped ∧
    events rec = Some (Array_sort (compareEvents Date_time) mapped) ∧
    currentActionCode rec =
      from_option Event.eventCode JUndefined
                  (head (Array_sort (compareEvents Date_time) mapped)) ∧
    currentActionDesc rec =
      from_option Event.eventDesc JUndefined
                  (head (Array_sort (compareEvents Date_time) mapped)) ∧
    documents rec = documentsData ∧ caseNumber rec = caseNum.
Proof.
  unfold fetchCaseData. destruct statusResponse as [statusData|]; simpl; [|discriminate].
  destruct docResponse as [documentsData|]; simpl; [|discriminate].
  match goal with |- context [mapM mapEvent ?l] =>
    destruct (mapM mapEvent l) as [mapped|] eqn:Hm end; simpl; [|discriminate].
  intros [= <-]. exists statusData, documentsData, mapped. done.
Qed.

(** X11. [fetchCaseData] gives a record exactly when both requests gave a
    payload and the code of every event of the payload is a string: one
    event without a code, or a failed request, drops the whole case
    ([null]). *)
Theorem fetchCaseData_produces_iff caseNumber statusResponse docResponse now :
  is_Some (fetchCaseData Date_time caseNumber statusResponse docResponse now) ↔
  (∃ statusData, statusResponse = Ok statusData) ∧
  (∃ documentsData, docResponse = Ok documentsData) ∧
  Forall (λ r, ∃ s, RawEvent.eventCode r = JString s) (raw_events statusResponse).
Proof.
  split.
  - intros [rec Hf].
    destruct (fetchCaseData_inv _ _ _ _ _ Hf)
      as (sd & d & mapped & -> & -> & Hm & _).
    split; [by eexists|]. split; [by eexists|].
    apply mapM_mapEvent_Forall2 in Hm.
    induction Hm as [|r e raw mapped' He _ IH]; constructor; [|done].
    destruct (mapEvent_inv _ _ He) as (s & Hs & _). by exists s.
  - intros ([sd ->] & [d ->] & Hcodes).
    destruct (fetchCaseData_total Date_time caseNumber sd d now Hcodes) as [rec Hrec].
    by exists rec.
Qed.

(** X12. A payload with no events (no [data], no [events] or an empty
    list) still gives a record: its events are the empty list and its current
    action code and description are [undefined]. *)
Theorem fetchCaseData_without_events caseNumber statusData documentsData now :
  raw_events (Ok statusData) = [] →
  ∃ rec, fetchCaseData Date_time caseNumber (Ok statusData) (Ok documentsData) now
         = Some rec ∧
         events rec = Some [] ∧
         currentActionCode rec = JUndefined ∧ currentActionDesc rec = JUndefined.
Proof.
  intros Hraw. unfold fetchCaseData. simpl. simpl in Hraw. rewrite Hraw. simpl.
  eexists. split; [reflexivity|]. done.
Qed.

Global Instance not_before_Transitive : Transitive (not_before Date_time).
Proof.
  intros e1 e2 e3 (t1 & t2 & H1 & H2 & H12) (t2' & t3 & H2' & H3 & H23).
  exists t1, t3. split; [done|]. split; [done|].
  assert (t2 = t2') by congruence. lia.
Qed.


(** X14. Every event of a record carries a string code and the description
    that the table gives for it ([Unknown] when the table has none). *)
Theorem events_carry_descriptions caseNumber statusResponse docResponse now rec evs :
  fetchCaseData Date_time caseNumber statusResponse docResponse now = Some rec →
  events rec = Some evs →
  ∀ e, e ∈ evs →
    ∃ code desc, Event.eventCode e = JString code ∧
                 Event.eventDesc e = JString desc ∧
                 getEventCodeDescription (JString code) = Ok desc.
Proof.
  intros Hf Hev e He.
  destruct (fetchCaseData_inv _ _ _ _ _ Hf) as (sd & d & mapped & _ & _ & Hm & Hev' & _).
  assert (evs = Array_sort (compareEvents Date_time) mapped) as -> by congruence.
  rewrite Array_sort_Permutation in He.
  apply mapM_mapEvent_Forall2 in Hm.
  apply list_elem_of_lookup_1 in He as [i Hi].
  destruct (Forall2_lookup_r _ _ _ _ _ Hm Hi) as (r & _ & Hr).
  destruct (mapEvent_inv _ _ Hr) as (s & _ & ->). by eexists _, _.
Qed.

Lemma Array_sort_sorted l :
  Sorted (not_before Date_time) l → Array_sort (compareEvents Date_time) l = l.
Proof.
  induction 1 as [|x l Hs IH Hhd]; simpl; [done|]. rewrite IH.
  destruct Hhd as [|y l' (tx & ty & Hx & Hy & Hle)]; simpl; [done|].
  unfold SortCompare, compareEvents. rewrite Hx, Hy. simpl.
  by rewrite bool_decide_false by lia.
Qed.

Lemma mapped_Sorted raw mapped :
  Forall2 (λ r e, mapEvent r = Ok e) raw mapped →
  Sorted (raw_not_before Date_time) raw → Sorted (not_before Date_time) mapped.
Proof.
  intros Hm. induction Hm as [|r e raw mapped He Hm IH]; intros Hs; [constructor|].
  apply Sorted_inv in Hs as [Hs Hhd]. constructor; [by apply IH|].
  destruct Hm as [|r' e' raw' mapped' He' _]; constructor.
  apply HdRel_inv in Hhd.
  destruct (mapEvent_inv _ _ He) as (s & _ & ->).
  destruct (mapEvent_inv _ _ He') as (s' & _ & ->). exact Hhd.
Qed.

(** X15. When the payload lists its events most recent first, the record
    lists them in the order of the payload. *)
Theorem sorted_payload_kept caseNumber statusResponse docResponse now rec :
  fetchCaseData Date_time caseNumber statusResponse docResponse now = Some rec →
  Sorted (raw_not_before Date_time) (raw_events statusResponse) →
  ∃ evs, events rec = Some evs ∧
         event_key <$> evs = raw_key <$> raw_events statusResponse.
Proof.
  intros Hf Hs.
  destruct (fetchCaseData_inv _ _ _ _ _ Hf) as (sd & d & mapped & _ & _ & Hm & Hev & _).
  eexists. split; [exact Hev|].
  rewrite Array_sort_sorted.
  - by apply mapM_mapEvent_keys.
  - eapply mapped_Sorted; [|exact Hs]. by apply mapM_mapEvent_Forall2.
Qed.

End ReconcilerFurther.

Lemma fetchCaseData_produces_iff_witness :
  is_Some (fetchCaseData sample_Date_time "IOE0912345678" sample_status sample_documents
             "2024-03-03T09:00:00.000Z") ∧
  ¬ is_Some (fetchCaseData sample_Date_time "IOE0912345678"
               (Ok (StatusData.mk (Some
                  (CaseInfo.mk JUndefined JUndefined JUndefined JUndefined JUndefined
                     (Some [RawEvent.mk (JString "IAF") (JString "2024-01-15T10:00:00Z");
                            RawEvent.mk JUndefined (JString "2024-03-02T08:30:00Z")])))))
               sample_documents "2024-03-03T09:00:00.000Z").
Proof.
  split.
  - apply (fetchCaseData_produces_iff sample_Date_time).
    split; [by eexists|]. split; [by eexists|].
    repeat constructor; by eexists.
  - intros Hsome. apply (fetchCaseData_produces_iff sample_Date_time) in Hsome
      as (_ & _ & Hcodes).
    simpl in Hcodes. apply Forall_cons in Hcodes as [_ Hcodes].
    apply Forall_cons in Hcodes as [[s Hs] _]. discriminate Hs.
Defined.

Lemma fetchCaseData_without_events_witness :
  ∃ rec, fetchCaseData sample_Date_time "IOE0912345678"
           (Ok (StatusData.mk None)) (Ok JsonNull) "2024-03-03T09:00:00.000Z"
         = Some rec ∧
         events rec = Some [] ∧
         currentActionCode rec = JUndefined ∧ currentActionDesc rec = JUndefined.
Proof.
  apply (fetchCaseData_without_events sample_Date_time). reflexivity.
Defined.


Lemma events_carry_descriptions_witness :
  ∃ rec evs, fetchCaseData sample_Date_time "IOE0912345678" sample_status sample_documents
               "2024-03-03T09:00:00.000Z" = Some rec ∧
    events rec = Some evs ∧
    ∀ e, e ∈ evs →
      ∃ code desc, Event.eventCode e = JString code ∧
                   Event.eventDesc e = JString desc ∧
                   getEventCodeDescription (JString code) = Ok desc.
Proof.
  destruct (fetchCaseData sample_Date_time "IOE0912345678" sample_status sample_documents
              "2024-03-03T09:00:00.000Z") as [rec|] eqn:Hf; [|by vm_compute in Hf].
  destruct (events rec) as [evs|] eqn:Hev.
  2:{ vm_compute in Hf. injection Hf as <-. discriminate Hev. }
  exists rec, evs. split; [reflexivity|]. split; [exact Hev|].
  exact (events_carry_descriptions sample_Date_time _ _ _ _ _ _ Hf Hev).
Defined.

Lemma sorted_payload_kept_witness :
  ∃ rec evs,
    fetchCaseData sample_Date_time "IOE0912345678"
      (Ok (StatusData.mk (Some
         (CaseInfo.mk JUndefined JUndefined JUndefined JUndefined JUndefined
            (Some [RawEvent.mk (JString "LDA") (JString "2024-03-02T08:30:00Z");
                   RawEvent.mk (JString "H008") (JString "2024-03-02T08:30:00Z");
                   RawEvent.mk (JString "IAF") (JString "2024-01-15T10:00:00Z")])))))
      sample_documents "2024-03-03T09:00:00.000Z" = Some rec ∧
    events rec = Some evs ∧
    event_key <$> evs =
      [(JString "LDA", JString "2024-03-02T08:30:00Z");
       (JString "H008", JString "2024-03-02T08:30:00Z");
       (JString "IAF", JString "2024-01-15T10:00:00Z")].
Proof.
  match goal with |- ∃ rec evs, ?f = _ ∧ _ =>
    destruct f as [rec|] eqn:Hf; [|by vm_compute in Hf] end.
  destruct (sorted_payload_kept sample_Date_time _ _ _ _ _ Hf) as (evs & Hev & Hkeys).
  - simpl. repeat constructor; eexists _, _; (split; [reflexivity|]);
      (split; [reflexivity|]); vm_compute; discriminate.
  - exists rec, evs. split; [reflexivity|]. split; [exact Hev|exact Hkeys].
Defined.

(** * Properties of the display and the discovery of case numbers *)

Local Arguments String.append !_ _ / : simpl nomatch.

Lemma append_nil_r s : s +:+ "" = s.
Proof. induction s as [|c s IH]; simpl; [done|]. by f_equal. Qed.

Lemma append_assoc a b c : (a +:+ b) +:+ c = a +:+ b +:+ c.
Proof. induction a as [|x a IH]; simpl; [done|]. by f_equal. Qed.

Lemma length_append a b : String.length (a +:+ b) = String.length a + String.length b.
Proof. induction a as [|x a IH]; simpl; [done|]. by f_equal. Qed.

(** Two ways of cutting one text: one cut comes first. *)
Lemma append_eq_append a b c d :
  a +:+ b = c +:+ d →
  (∃ t, c = a +:+ t ∧ b = t +:+ d) ∨
  (∃ x t, a = c +:+ String x t ∧ d = String x t +:+ b).
Proof.
  revert c. induction a as [|x a IH]; intros c Heq; simpl in Heq.
  - left. exists c. by subst.
  - destruct c as [|y c]; simpl in Heq.
    + right. exists x, a. by subst.
    + injection Heq as -> Heq. destruct (IH _ Heq) as [(t & -> & ->)|(z & t & -> & ->)].
      * left. by exists t.
      * right. by exists z, t.
Qed.

Lemma maskCaseId_append a b : maskCaseId (a +:+ b) = maskCaseId a +:+ maskCaseId b.
Proof. induction a as [|c a IH]; simpl; [done|]. by f_equal. Qed.

Lemma maskCaseId_digits s :
  all_digits s = true → maskCaseId s = stars (String.length s).
Proof.
  induction s as [|c s IH]; simpl; [done|]. intros [Hc Hs]%andb_true_iff.
  by rewrite Hc, IH.
Qed.

(** X16. Masking keeps the length of the text and the characters that are
    not digits, leaves no digit, and changes nothing when applied again or
    to a text without digits. *)
Theorem maskCaseId_hides_digits :
  (∀ caseId, String.length (maskCaseId caseId) = String.length caseId) ∧
  (∀ caseId, no_digit (maskCaseId caseId) = true) ∧
  (∀ caseId i c, String.get i caseId = Some c →
     String.get i (maskCaseId caseId) = Some (if is_digit c then "*"%char else c)) ∧
  (∀ caseId, maskCaseId (maskCaseId caseId) = maskCaseId caseId) ∧
  (∀ caseId, no_digit caseId = true → maskCaseId caseId = caseId).
Proof.
  split; [|split; [|split; [|split]]].
  - induction caseId as [|c s IH]; simpl; [done|]. by rewrite IH.
  - induction caseId as [|c s IH]; simpl; [done|]. rewrite IH.
    by destruct (is_digit c) eqn:Hc; simpl; [|rewrite Hc].
  - induction caseId as [|c s IH]; intros i x; simpl; [done|].
    destruct i as [|i]; [by intros [= ->]|]. apply IH.
  - induction caseId as [|c s IH]; simpl; [done|]. rewrite IH.
    by destruct (is_digit c) eqn:Hc; simpl; [|rewrite Hc].
  - induction caseId as [|c s IH]; simpl; [done|]. intros [Hc Hs]%andb_true_iff.
    apply negb_true_iff in Hc. by rewrite Hc, IH.
Qed.

Lemma maskCaseId_hides_digits_witness :
  maskCaseId "IOE0912345678" = "IOE**********" ∧ maskCaseId "I-485" = "I-***" ∧
  maskCaseId "pending" = "pending".
Proof.
  destruct maskCaseId_hides_digits as (_ & _ & _ & _ & Hsame).
  split; [reflexivity|]. split; [reflexivity|]. apply Hsame. reflexivity.
Defined.

(** ** The search for [/IOE\d+/g] *)

Lemma take_digits_spec s :
  s = (take_digits s).1 +:+ (take_digits s).2 ∧
  all_digits (take_digits s).1 = true ∧
  no_leading_digit (take_digits s).2.
Proof.
  induction s as [|c s (IH1 & IH2 & IH3)]; simpl; [done|].
  destruct (is_digit c) eqn:Hc; simpl.
  - destruct (take_digits s) as [d r]; simpl in *.
    split; [by f_equal|]. split; [|done]. apply andb_true_iff. done.
  - done.
Qed.

Lemma take_digits_run digits post :
  all_digits digits = true → no_leading_digit post →
  take_digits (digits +:+ post) = (digits, post).
Proof.
  intros Hd Hp. induction digits as [|c d IH]; simpl.
  - destruct post as [|c r]; [done|]. simpl in *. by rewrite Hp.
  - simpl in Hd. apply andb_true_iff in Hd as [Hc Hd]. rewrite Hc. by rewrite (IH Hd).
Qed.

Lemma strip_prefix_Some p s rest : strip_prefix p s = Some rest → s = p +:+ rest.
Proof.
  revert s. induction p as [|a p IH]; intros s; simpl; [by intros [= ->]|].
  destruct s as [|b s]; [done|]. destruct (Ascii.eqb a b) eqn:Hab; [|done].
  apply Ascii.eqb_eq in Hab as ->. intros Hs. by rewrite (IH _ Hs).
Qed.

Lemma strip_prefix_append p rest : strip_prefix p (p +:+ rest) = Some rest.
Proof. induction p as [|a p IH]; simpl; [done|]. by rewrite Ascii.eqb_refl. Qed.

Lemma match_IOE_Some s m rest :
  match_IOE s = Some (m, rest) →
  is_case_number m ∧ s = m +:+ rest ∧ no_leading_digit rest.
Proof.
  unfold match_IOE. destruct (strip_prefix "IOE" s) as [r|] eqn:Hp; simpl; [|done].
  apply strip_prefix_Some in Hp.
  destruct (take_digits_spec r) as (Hr & Hd & Hn).
  destruct (take_digits r) as [[|c d] r']; simpl in *; [done|].
  intros [= <- <-]. split; [|split; [|done]].
  - exists (String c d). done.
  - rewrite Hp, Hr. reflexivity.
Qed.

Lemma match_IOE_here digits post :
  digits ≠ "" → all_digits digits = true → no_leading_digit post →
  match_IOE ("IOE" +:+ digits +:+ post) = Some ("IOE" +:+ digits, post).
Proof.
  intros Hne Hd Hp. unfold match_IOE. rewrite strip_prefix_append. simpl.
  rewrite (take_digits_run _ _ Hd Hp). by destruct digits.
Qed.

Lemma match_all_sound fuel s m :
  m ∈ match_all fuel s →
  is_case_number m ∧ ∃ pre post, s = pre +:+ m +:+ post.
Proof.
  revert s. induction fuel as [|fuel IH]; intros s; simpl.
  - intros Hm. by apply elem_of_nil in Hm.
  - destruct (match_IOE s) as [[m' rest]|] eqn:Hs.
    + destruct (match_IOE_Some _ _ _ Hs) as (Hcase & Hcut & _).
      intros [->|Hm]%elem_of_cons.
      * split; [done|]. by exists "", rest.
      * destruct (IH _ Hm) as (Hc & pre & post & Hrest). split; [done|].
        exists (m' +:+ pre), post. by rewrite Hcut, Hrest, append_assoc.
    + destruct s as [|c s]; [intros Hm; by apply elem_of_nil in Hm|].
      intros Hm. destruct (IH _ Hm) as (Hc & pre & post & Hrest). split; [done|].
      exists (String c pre), post. simpl. by rewrite Hrest.
Qed.

(** The fuel that [extractCaseNumbersFromDOM] gives is never exhausted:
    more fuel finds the same matches. *)
Lemma match_all_fuel fuel1 fuel2 s :
  String.length s ≤ fuel1 → String.length s ≤ fuel2 →
  match_all fuel1 s = match_all fuel2 s.
Proof.
  revert fuel2 s. induction fuel1 as [|fuel1 IH]; intros fuel2 s H1 H2.
  - destruct s; [|simpl in H1; lia]. by destruct fuel2.
  - destruct fuel2 as [|fuel2].
    + destruct s; [|simpl in H2; lia]. done.
    + simpl. destruct (match_IOE s) as [[m rest]|] eqn:Hs.
      * destruct (match_IOE_Some _ _ _ Hs) as ((d & -> & Hne & _) & Hcut & _).
        assert (String.length rest < String.length s).
        { rewrite Hcut, length_append. simpl. lia. }
        f_equal. apply IH; lia.
      * destruct s as [|c s]; [done|]. simpl in H1, H2. apply IH; lia.
Qed.

Lemma all_digits_append_inv a c b :
  all_digits (a +:+ String c b) = true → is_digit c = true.
Proof.
  induction a as [|x a IH]; simpl.
  - by intros [? _]%andb_true_iff.
  - intros [_ ?]%andb_true_iff. by apply IH.
Qed.

(** A case number has its only [I] in front. *)
Lemma case_number_no_inner_I m pre t :
  is_case_number m → m = pre +:+ String "I"%char t → pre = "".
Proof.
  intros (d & -> & _ & Hd) Heq.
  destruct pre as [|c1 [|c2 [|c3 pre]]]; simpl in Heq; [done|..].
  - by injection Heq.
  - by injection Heq.
  - injection Heq as _ _ _ Heq. rewrite Heq in Hd.
    apply all_digits_append_inv in Hd. by vm_compute in Hd.
Qed.

Lemma match_all_S fuel s :
  match_all (S fuel) s =
  match match_IOE s with
  | Some (m, rest) => m :: match_all fuel rest
  | None => match s with
            | EmptyString => []
            | String _ s' => match_all fuel s'
            end
  end.
Proof. reflexivity. Qed.

Lemma match_all_complete fuel pre digits post :
  digits ≠ "" → all_digits digits = true → no_leading_digit post →
  String.length (pre +:+ "IOE" +:+ digits +:+ post) ≤ fuel →
  "IOE" +:+ digits ∈ match_all fuel (pre +:+ "IOE" +:+ digits +:+ post).
Proof.
  intros Hne Hd Hp. revert pre.
  induction fuel as [|fuel IH]; intros pre Hlen.
  - rewrite length_append in Hlen. simpl in Hlen. lia.
  - rewrite match_all_S. destruct pre as [|c pre].
    + change ("" +:+ "IOE" +:+ digits +:+ post) with ("IOE" +:+ digits +:+ post).
      rewrite (match_IOE_here _ _ Hne Hd Hp). by left.
    + destruct (match_IOE (String c pre +:+ "IOE" +:+ digits +:+ post))
        as [[m rest]|] eqn:Hs.
      * destruct (match_IOE_Some _ _ _ Hs) as (Hcase & Hcut & _).
        apply elem_of_cons. right. symmetry in Hcut.
        apply append_eq_append in Hcut as [(t & Hpre & ->)|(x & t & Hm & Hx)].
        -- apply IH. rewrite Hpre, append_assoc, length_append in Hlen.
           destruct Hcase as (d & -> & Hdne & _).
           rewrite (length_append "IOE" d) in Hlen. simpl in Hlen |- *. lia.
        -- exfalso. simpl in Hx. injection Hx as <- _.
           by pose proof (case_number_no_inner_I _ _ _ Hcase Hm).
      * change (String c pre +:+ "IOE" +:+ digits +:+ post)
          with (String c (pre +:+ "IOE" +:+ digits +:+ post)).
        apply IH. simpl in Hlen |- *. lia.
Qed.

Lemma Set_to_Array_spec (matches seen : list string) :
  NoDup seen →
  NoDup (foldl (λ (seen : list string) m,
                  if decide (m ∈ seen) then seen else (seen ++ [m])%list)
               seen matches) ∧
  ∀ x, x ∈ foldl (λ (seen : list string) m,
                    if decide (m ∈ seen) then seen else (seen ++ [m])%list)
                 seen matches ↔ x ∈ seen ∨ x ∈ matches.
Proof.
  revert seen. induction matches as [|m matches IH]; intros seen Hnd; simpl.
  - split; [done|]. intros x. rewrite elem_of_nil. tauto.
  - destruct (decide (m ∈ seen)) as [Hin|Hnin].
    + destruct (IH seen Hnd) as [IH1 IH2]. split; [done|]. intros x.
      rewrite IH2, elem_of_cons. split; [tauto|]. intros [?|[->|?]]; tauto.
    + assert (Hnd' : NoDup (seen ++ [m])).
      { apply NoDup_app. split; [done|]. split; [|apply NoDup_singleton].
        intros x Hx ->%list_elem_of_singleton. done. }
      destruct (IH _ Hnd') as [IH1 IH2]. split; [done|]. intros x.
      rewrite IH2, elem_of_app, list_elem_of_singleton, elem_of_cons. tauto.
Qed.

Lemma elem_of_extractCaseNumbersFromDOM pageText n :
  n ∈ extractCaseNumbersFromDOM pageText ↔
  n ∈ match_all (String.length pageText) pageText.
Proof.
  unfold extractCaseNumbersFromDOM, Set_to_Array.
  destruct (Set_to_Array_spec (match_all (String.length pageText) pageText) []
              (NoDup_nil_2)) as [_ Hin].
  rewrite Hin, elem_of_nil. tauto.
Qed.

(** X17. Every case number that [extractCaseNumbersFromDOM] returns is
    [IOE] followed by one digit or more and stands in the text of the page;
    no case number is returned twice; a page without a match gives the empty
    list. *)
Theorem extracted_case_numbers_sound pageText :
  NoDup (extractCaseNumbersFromDOM pageText) ∧
  (∀ n, n ∈ extractCaseNumbersFromDOM pageText →
     is_case_number n ∧ ∃ pre post, pageText = pre +:+ n +:+ post) ∧
  (match_all (String.length pageText) pageText = [] →
   extractCaseNumbersFromDOM pageText = []).
Proof.
  split; [|split].
  - unfold extractCaseNumbersFromDOM, Set_to_Array.
    by destruct (Set_to_Array_spec (match_all (String.length pageText) pageText) []
                   (NoDup_nil_2)) as [Hnd _].
  - intros n Hn. apply elem_of_extractCaseNumbersFromDOM in Hn.
    by eapply match_all_sound.
  - intros Hnone. unfold extractCaseNumbersFromDOM. by rewrite Hnone.
Qed.

Lemma extracted_case_numbers_sound_witness :
  extractCaseNumbersFromDOM sample_page = ["IOE0912345678"; "IOE0987654321"] ∧
  extractCaseNumbersFromDOM "No cases on file (IOE pending)." = [].
Proof.
  split; [reflexivity|].
  destruct (extracted_case_numbers_sound "No cases on file (IOE pending).")
    as (_ & _ & Hnone).
  apply Hnone. reflexivity.
Defined.

(** X18. Every case number of the page is found: wherever the text has
    [IOE] followed by a run of digits that ends there, that case number is
    among those returned. *)
Theorem extracted_case_numbers_complete pre digits post :
  digits ≠ "" → all_digits digits = true → no_leading_digit post →
  "IOE" +:+ digits ∈ extractCaseNumbersFromDOM (pre +:+ "IOE" +:+ digits +:+ post).
Proof.
  intros Hne Hd Hp. apply elem_of_extractCaseNumbersFromDOM.
  by apply match_all_complete.
Qed.

Lemma extracted_case_numbers_complete_witness :
  "IOE0987654321" ∈ extractCaseNumbersFromDOM sample_page.
Proof.
  apply (extracted_case_numbers_complete
           "Your cases: IOE0912345678 (I-485), " "0987654321"
           " (I-765); see IOE0912345678."); [discriminate|reflexivity|reflexivity].
Defined.

(** X19. With the case ids hidden, a case number found in the page is shown
    as [IOE] followed by one star for each of its digits; with the ids shown,
    as it is. *)
Theorem displayCaseId_of_extracted pageText n :
  n ∈ extractCaseNumbersFromDOM pageText →
  ∃ digits, n = "IOE" +:+ digits ∧
            displayCaseId true n = "IOE" +:+ stars (String.length digits) ∧
            displayCaseId false n = n.
Proof.
  intros Hn. apply elem_of_extractCaseNumbersFromDOM in Hn.
  destruct (match_all_sound _ _ _ Hn) as ((digits & -> & _ & Hd) & _).
  exists digits. split; [done|]. split; [|done].
  unfold displayCaseId. rewrite maskCaseId_append, (maskCaseId_digits _ Hd). done.
Qed.

Lemma displayCaseId_of_extracted_witness :
  ∃ digits, "IOE0987654321" = "IOE" +:+ digits ∧
            displayCaseId true "IOE0987654321" = "IOE" +:+ stars (String.length digits) ∧
            displayCaseId false "IOE0987654321" = "IOE0987654321".
Proof.
  apply (displayCaseId_of_extracted sample_page).
  apply elem_of_extractCaseNumbersFromDOM. vm_compute. apply list_elem_of_In.
  right. left. reflexivity.
Defined.

(** * Properties of the main pass *)

Section TrackerProperties.
Variable Date_time : jsprim → option Z.

Lemma fetchCaseData_clock caseNum statusResponse docResponse now1 now2 :
  fetchCaseData Date_time caseNum statusResponse docResponse now2 =
  with_lastFetched now2 <$> fetchCaseData Date_time caseNum statusResponse docResponse now1.
Proof.
  unfold fetchCaseData.
  destruct statusResponse as [statusData|]; simpl; [|done].
  destruct docResponse as [documentsData|]; simpl; [|done].
  match goal with |- context [mapM mapEvent ?l] =>
    destruct (mapM mapEvent l) as [mapped|] end; done.
Qed.

Lemma collectCases_lookup_from caseNumbers fetch (acc : gmap string CaseRecord) k :
  foldl (λ (newData : gmap string CaseRecord) caseNum,
           match fetchCaseData Date_time caseNum
                   (Fetched.status (fetch caseNum)) (Fetched.documents (fetch caseNum))
                   (Fetched.now (fetch caseNum)) with
           | Some caseData => <[caseNum := caseData]> newData
           | None => newData
           end) acc caseNumbers !! k =
  match (if decide (k ∈ caseNumbers)
         then fetchCaseData Date_time k (Fetched.status (fetch k))
                (Fetched.documents (fetch k)) (Fetched.now (fetch k))
         else None) with
  | Some caseData => Some caseData
  | None => acc !! k
  end.
Proof.
  revert acc. induction caseNumbers as [|k0 ks IH]; intros acc; simpl; [done|].
  rewrite IH. clear IH.
  destruct (decide (k = k0)) as [->|Hne].
  - rewrite (decide_True (P := k0 ∈ k0 :: ks)) by (by left).
    destruct (fetchCaseData Date_time k0 _ _ _) as [r|] eqn:Hf.
    + rewrite lookup_insert_eq. by destruct (decide (k0 ∈ ks)).
    + by destruct (decide (k0 ∈ ks)).
  - assert (Hk : ∀ r, <[k0 := r]> acc !! k = acc !! k).
    { intros r. by apply lookup_insert_ne. }
    destruct (decide (k ∈ ks)) as [Hin|Hnin].
    + rewrite decide_True by (by right).
      destruct (fetchCaseData Date_time k0 _ _ _); [by rewrite Hk|done].
    + rewrite decide_False by (intros [?|?]%elem_of_cons; done).
      destruct (fetchCaseData Date_time k0 _ _ _); [by rewrite Hk|done].
Qed.

Lemma collectCases_lookup caseNumbers fetch k :
  collectCases Date_time caseNumbers fetch !! k =
  if decide (k ∈ caseNumbers)
  then fetchCaseData Date_time k (Fetched.status (fetch k))
         (Fetched.documents (fetch k)) (Fetched.now (fetch k))
  else None.
Proof.
  unfold collectCases. rewrite collectCases_lookup_from.
  destruct (decide (k ∈ caseNumbers)); [|done].
  by destruct (fetchCaseData Date_time k _ _ _).
Qed.

(** X20. The cases collected by the pass are those of the case numbers
    found whose record could be built: a case whose requests fail, or whose
    payload cannot be read, is left out and the others are kept. *)
Theorem failed_fetch_left_out caseNumbers fetch :
  (∀ k rec, collectCases Date_time caseNumbers fetch !! k = Some rec ↔
     k ∈ caseNumbers ∧
     fetchCaseData Date_time k (Fetched.status (fetch k))
       (Fetched.documents (fetch k)) (Fetched.now (fetch k)) = Some rec) ∧
  (∀ k, k ∈ caseNumbers →
     fetchCaseData Date_time k (Fetched.status (fetch k))
       (Fetched.documents (fetch k)) (Fetched.now (fetch k)) = None →
     collectCases Date_time caseNumbers fetch !! k = None).
Proof.
  split.
  - intros k rec. rewrite collectCases_lookup.
    destruct (decide (k ∈ caseNumbers)); [tauto|]. split; [done|tauto].
  - intros k Hk Hnone. rewrite collectCases_lookup. by rewrite decide_True.
Qed.

Lemma collectCases_Some caseNumbers fetch k rec :
  collectCases Date_time caseNumbers fetch !! k = Some rec →
  k ∈ caseNumbers ∧
  fetchCaseData Date_time k (Fetched.status (fetch k))
    (Fetched.documents (fetch k)) (Fetched.now (fetch k)) = Some rec.
Proof.
  unfold collectCases. rewrite collectCases_lookup_from.
  destruct (decide (k ∈ caseNumbers)); [|done].
  destruct (fetchCaseData Date_time k _ _ _); [|done]. by intros [= ->].
Qed.

Lemma collectCases_have_events oldCases caseNumbers fetch :
  new_only_have_events oldCases (collectCases Date_time caseNumbers fetch).
Proof.
  intros k n Hn _. apply collectCases_Some in Hn as [_ Hf].
  by eapply fetchCaseData_has_events.
Qed.

Lemma collected_cases_never_raise_aux oldCases pageText fetch :
  ∃ h, detectFieldHighlights oldCases
         (collectCases Date_time (extractCaseNumbersFromDOM pageText) fetch) = Ok h.
Proof. apply detect_total_events, collectCases_have_events. Qed.

(** X21. On the cases that the pass collects, [detectFieldHighlights] never
    raises, whatever the prior cases are: every record built by
    [fetchCaseData] carries its events list. *)
Theorem collected_cases_never_raise oldCases caseNumbers fetch :
  ∃ h, detectFieldHighlights oldCases (collectCases Date_time caseNumbers fetch) = Ok h.
Proof. apply detect_total_events, collectCases_have_events. Qed.

Lemma changes_none (h : gmap string Highlight) :
  (∀ caseNum a, h !! caseNum = Some a → hasChange a = false) →
  filter (λ entry, hasChange entry.2 = true) (Object_entries h) = [].
Proof.
  intros Hnone. unfold Object_entries.
  assert (Hall : ∀ entry, entry ∈ map_to_list h → hasChange entry.2 = false).
  { intros [k a] Hin. apply elem_of_map_to_list in Hin. by eapply Hnone. }
  induction (map_to_list h) as [|entry l IH]; [done|].
  rewrite filter_cons_False.
  - apply IH. intros e He. apply Hall. by right.
  - rewrite (Hall entry) by (by left). done.
Qed.

Lemma changes_all (h : gmap string Highlight) :
  (∀ caseNum a, h !! caseNum = Some a → hasChange a = true) →
  filter (λ entry, hasChange entry.2 = true) (Object_entries h) = Object_entries h.
Proof.
  intros Hsome. unfold Object_entries.
  assert (Hall : ∀ entry, entry ∈ map_to_list h → hasChange entry.2 = true).
  { intros [k a] Hin. apply elem_of_map_to_list in Hin. by eapply Hsome. }
  induction (map_to_list h) as [|entry l IH]; [done|].
  rewrite filter_cons_True by (apply Hall; by left).
  f_equal. apply IH. intros e He. apply Hall. by right.
Qed.

Lemma getLastSavedCases_run st prior :
  outcome getLastSavedCases st = Ok prior → getLastSavedCases st = (Ok prior, st).
Proof.
  intros Hout. pose proof (getLastSavedCases_storage st) as Hst.
  unfold outcome, storage_after in *. destruct (getLastSavedCases st) as [r st'].
  simpl in *. by subst.
Qed.

Lemma trackCases_run pageText fetch now1 now2 st entries prior h :
  outcome getHistory st = Ok (JArray entries) →
  outcome getLastSavedCases st = Ok prior →
  detectFieldHighlights prior
    (collectCases Date_time (extractCaseNumbersFromDOM pageText) fetch) = Ok h →
  trackCases Date_time pageText fetch now1 now2 st =
  (Ok (Tracked.mk h (collectCases Date_time (extractCaseNumbersFromDOM pageText) fetch)
         (filter (λ entry, hasChange entry.2 = true) (Object_entries h))),
   (saveToHistory (collectCases Date_time (extractCaseNumbersFromDOM pageText) fetch)
                  now1 now2 st).2).
Proof.
  intros Hh Hprior Hd. unfold trackCases, mbind, M_bind.
  rewrite (getLastSavedCases_run _ _ Hprior). unfold lift. rewrite Hd.
  by rewrite (saveToHistory_run _ _ _ _ _ Hh).
Qed.

Lemma trackCases_effect pageText fetch now1 now2 st entries prior :
  outcome getHistory st = Ok (JArray entries) →
  outcome getLastSavedCases st = Ok prior →
  ∃ tracked,
    outcome (trackCases Date_time pageText fetch now1 now2) st = Ok tracked ∧
    Tracked.currentCaseData tracked =
      collectCases Date_time (extractCaseNumbersFromDOM pageText) fetch ∧
    detectFieldHighlights prior (Tracked.currentCaseData tracked) =
      Ok (Tracked.fieldHighlights tracked) ∧
    outcome getLastSavedCases
      (storage_after (trackCases Date_time pageText fetch now1 now2) st) =
      Ok (Tracked.currentCaseData tracked) ∧
    outcome getHistory
      (storage_after (trackCases Date_time pageText fetch now1 now2) st) =
      Ok (JArray (entries ++
                  [Snapshot.mk (Tracked.currentCaseData tracked) (JString now1)])).
Proof.
  intros Hh Hprior.
  destruct (collected_cases_never_raise_aux prior pageText fetch) as [h Hd].
  pose proof (trackCases_run _ _ now1 now2 _ _ _ _ Hh Hprior Hd) as Hrun.
  assert (Hst : storage_after (trackCases Date_time pageText fetch now1 now2) st =
                storage_after
                  (saveToHistory
                     (collectCases Date_time (extractCaseNumbersFromDOM pageText) fetch)
                     now1 now2) st).
  { unfold storage_after. by rewrite Hrun. }
  pose proof (getHistory_after_save _ _
    (collectCases Date_time (extractCaseNumbersFromDOM pageText) fetch) now1 now2 Hh)
    as Hafter.
  eexists. split; [unfold outcome; by rewrite Hrun|]. simpl.
  split; [reflexivity|]. split; [exact Hd|]. rewrite Hst. split; [|exact Hafter].
  by rewrite (getLastSavedCases_nonempty _ _ _ Hafter).
Qed.


(** X22. On a storage whose history reads as an array and whose latest
    cases can be read, the pass returns; its highlights are those of the
    latest cases against the cases collected; and afterwards the cases
    collected are the latest cases and the last snapshot of a history that is
    one entry longer. *)
Theorem trackCases_saves pageText fetch now1 now2 st entries prior :
  outcome getHistory st = Ok (JArray entries) →
  outcome getLastSavedCases st = Ok prior →
  ∃ tracked,
    outcome (trackCases Date_time pageText fetch now1 now2) st = Ok tracked ∧
    Tracked.currentCaseData tracked =
      collectCases Date_time (extractCaseNumbersFromDOM pageText) fetch ∧
    detectFieldHighlights prior (Tracked.currentCaseData tracked) =
      Ok (Tracked.fieldHighlights tracked) ∧
    outcome getLastSavedCases
      (storage_after (trackCases Date_time pageText fetch now1 now2) st) =
      Ok (Tracked.currentCaseData tracked) ∧
    outcome getHistory
      (storage_after (trackCases Date_time pageText fetch now1 now2) st) =
      Ok (JArray (entries ++
                  [Snapshot.mk (Tracked.currentCaseData tracked) (JString now1)])).
Proof. apply trackCases_effect. Qed.

(** X23. A second pass over the same page and the same payloads, at
    whatever time, reports no change: no annotation flags anything and the
    list of changes is empty. *)
Theorem second_pass_reports_nothing pageText fetch fetch' now1 now2 now3 now4
    st entries prior :
  outcome getHistory st = Ok (JArray entries) →
  outcome getLastSavedCases st = Ok prior →
  (∀ k, Fetched.status (fetch' k) = Fetched.status (fetch k) ∧
        Fetched.documents (fetch' k) = Fetched.documents (fetch k)) →
  ∃ tracked,
    outcome (trackCases Date_time pageText fetch' now3 now4)
            (storage_after (trackCases Date_time pageText fetch now1 now2) st)
    = Ok tracked ∧
    Tracked.changes tracked = [] ∧
    ∀ caseNum a, Tracked.fieldHighlights tracked !! caseNum = Some a → no_highlight a.
Proof.
  intros Hh Hprior Hsame.
  destruct (trackCases_effect pageText fetch now1 now2 st entries prior Hh Hprior)
    as (tracked1 & _ & Hdata1 & _ & Hlatest1 & Hhist1).
  set (st1 := storage_after (trackCases Date_time pageText fetch now1 now2) st) in *.
  set (ks := extractCaseNumbersFromDOM pageText) in *.
  destruct (detect_nothing_new (Tracked.currentCaseData tracked1)
              (collectCases Date_time ks fetch')) as (h & Hd & Hclear).
  { intros k n2 Hn2. apply collectCases_Some in Hn2 as [Hk Hf2].
    destruct (Hsame k) as [Hs Hdoc]. rewrite Hs, Hdoc in Hf2.
    rewrite (fetchCaseData_clock _ _ _ (Fetched.now (fetch k))) in Hf2.
    destruct (fetchCaseData Date_time k (Fetched.status (fetch k))
                (Fetched.documents (fetch k)) (Fetched.now (fetch k)))
      as [n1|] eqn:Hf1; [|discriminate].
    simpl in Hf2. injection Hf2 as <-. exists n1. split.
    - rewrite Hdata1, collectCases_lookup. by rewrite decide_True.
    - split; [done|]. split; [done|]. intros e He. by apply list_elem_of_fmap_2. }
  pose proof (trackCases_run pageText fetch' now3 now4 st1 _ _ h Hhist1 Hlatest1 Hd)
    as Hrun.
  eexists. split; [unfold outcome; by rewrite Hrun|]. simpl. split.
  - apply changes_none. intros k a Ha. by apply (Hclear k a).
  - intros k a Ha. by apply (Hclear k a).
Qed.

(** X24. On a storage with no history and no snapshot of version 0.4, the
    pass reports every case that it collects as new, with all its events
    marked, and lists each of them among the changes. *)
Theorem first_pass_all_new pageText fetch now1 now2 st :
  outcome getHistory st = Ok (JArray []) →
  truthy (st !! STORAGE_KEY) = None →
  ∃ tracked,
    outcome (trackCases Date_time pageText fetch now1 now2) st = Ok tracked ∧
    dom (Tracked.fieldHighlights tracked) = dom (Tracked.currentCaseData tracked) ∧
    Tracked.changes tracked = Object_entries (Tracked.fieldHighlights tracked) ∧
    ∀ caseNum rec, Tracked.currentCaseData tracked !! caseNum = Some rec →
      ∃ a evs, Tracked.fieldHighlights tracked !! caseNum = Some a ∧
               events rec = Some evs ∧ isNew a = true ∧ updatedAtChanged a = true ∧
               newEventIndices a = set_seq 0 (length evs).
Proof.
  intros Hh Hnone.
  assert (Hprior : outcome getLastSavedCases st = Ok ∅).
  { by rewrite (getLastSavedCases_empty _ Hh), Hnone. }
  destruct (trackCases_effect pageText fetch now1 now2 st [] ∅ Hh Hprior)
    as (tracked & Hout & Hdata & Hd & _).
  assert (Hnew : ∀ caseNum rec, Tracked.currentCaseData tracked !! caseNum = Some rec →
      ∃ a evs, Tracked.fieldHighlights tracked !! caseNum = Some a ∧
               events rec = Some evs ∧ isNew a = true ∧ updatedAtChanged a = true ∧
               newEventIndices a = set_seq 0 (length evs)).
  { intros k rec Hrec.
    destruct (detect_Ok_known _ _ _ _ _ Hd Hrec) as (a & Ha & Hlook).
    assert (is_Some (events rec)) as [evs Hev].
    { rewrite Hdata in Hrec. apply collectCases_Some in Hrec as [_ Hf].
      by eapply fetchCaseData_has_events. }
    destruct (highlightCase_new ∅ _ k rec evs (lookup_empty k) Hrec Hev)
      as (a' & Ha' & Hflags).
    assert (a = a') as -> by congruence. by exists a', evs. }
  exists tracked. split; [done|]. split; [|split; [|done]].
  - apply set_eq. intros k. rewrite !elem_of_dom. split.
    + intros [a Ha]. destruct (Tracked.currentCaseData tracked !! k) eqn:Hk; [done|].
      rewrite (detect_Ok_unknown _ _ _ _ Hd Hk) in Ha. discriminate.
    + intros [rec Hrec]. destruct (Hnew _ _ Hrec) as (a & _ & Ha & _). by eexists.
  - assert (Hchanges : Tracked.changes tracked =
      filter (λ entry, hasChange entry.2 = true)
             (Object_entries (Tracked.fieldHighlights tracked))).
    { destruct (collected_cases_never_raise_aux ∅ pageText fetch) as [h Hdh].
      pose proof (trackCases_run pageText fetch now1 now2 st _ _ h Hh Hprior Hdh) as Hrun.
      unfold outcome in Hout. rewrite Hrun in Hout. simpl in Hout.
      by injection Hout as <-. }
    rewrite Hchanges. apply changes_all. intros k a Ha.
    destruct (Tracked.currentCaseData tracked !! k) as [rec|] eqn:Hk.
    + destruct (Hnew _ _ Hk) as (a' & _ & Ha' & _ & Hisnew & _).
      assert (a = a') as -> by congruence. unfold hasChange. by rewrite Hisnew.
    + rewrite (detect_Ok_unknown _ _ _ _ Hd Hk) in Ha. discriminate.
Qed.

(** X25. When the latest cases cannot be read (an unparseable history or
    snapshot), the pass raises the same error before any request is made and
    writes nothing: every later pass fails alike until the storage is
    cleared. *)
Theorem trackCases_blocked pageText fetch now1 now2 st e :
  outcome getLastSavedCases st = Throw e →
  trackCases Date_time pageText fetch now1 now2 st = (Throw e, st).
Proof.
  intros Hout. pose proof (getLastSavedCases_storage st) as Hst.
  unfold trackCases, mbind, M_bind. unfold outcome, storage_after in *.
  destruct (getLastSavedCases st) as [r st']. simpl in *. by subst.
Qed.

End TrackerProperties.

Lemma failed_fetch_left_out_witness :
  collectCases sample_Date_time ["IOE0912345678"; "IOE0987654321"] sample_fetch
    !! "IOE0987654321" = None ∧
  is_Some (collectCases sample_Date_time ["IOE0912345678"; "IOE0987654321"] sample_fetch
             !! "IOE0912345678").
Proof.
  destruct (failed_fetch_left_out sample_Date_time
              ["IOE0912345678"; "IOE0987654321"] sample_fetch) as [Hiff Hnone].
  split.
  - apply Hnone; [|reflexivity]. apply list_elem_of_In. right. left. reflexivity.
  - eexists. apply Hiff. split; [|reflexivity]. apply list_elem_of_In. left. reflexivity.
Defined.

Lemma trackCases_saves_witness :
  ∃ tracked,
    outcome (trackCases sample_Date_time sample_page sample_fetch "t1" "t2") legacy_only
    = Ok tracked ∧
    outcome getLastSavedCases
      (storage_after (trackCases sample_Date_time sample_page sample_fetch "t1" "t2")
                     legacy_only)
    = Ok (Tracked.currentCaseData tracked).
Proof.
  destruct (trackCases_saves sample_Date_time sample_page sample_fetch "t1" "t2"
              legacy_only [] scenario_prior) as (tracked & Hout & _ & _ & Hlatest & _);
    [reflexivity|reflexivity|].
  exists tracked. split; [exact Hout|exact Hlatest].
Defined.

Lemma second_pass_reports_nothing_witness :
  ∃ tracked,
    outcome (trackCases sample_Date_time sample_page sample_fetch "t3" "t4")
            (storage_after (trackCases sample_Date_time sample_page sample_fetch "t1" "t2")
                           legacy_only)
    = Ok tracked ∧ Tracked.changes tracked = [].
Proof.
  destruct (second_pass_reports_nothing sample_Date_time sample_page sample_fetch
              sample_fetch "t1" "t2" "t3" "t4" legacy_only [] scenario_prior)
    as (tracked & Hout & Hnone & _); [reflexivity|reflexivity|done|].
  exists tracked. split; [exact Hout|exact Hnone].
Defined.

Lemma first_pass_all_new_witness :
  ∃ tracked,
    outcome (trackCases sample_Date_time sample_page sample_fetch "t1" "t2") ∅
    = Ok tracked ∧
    Tracked.changes tracked = Object_entries (Tracked.fieldHighlights tracked).
Proof.
  destruct (first_pass_all_new sample_Date_time sample_page sample_fetch "t1" "t2" ∅)
    as (tracked & Hout & _ & Hall & _); [reflexivity|reflexivity|].
  exists tracked. split; [exact Hout|exact Hall].
Defined.

Lemma trackCases_blocked_witness :
  trackCases sample_Date_time sample_page sample_fetch "t1" "t2" corrupt_history
  = (Throw SyntaxError, corrupt_history).
Proof.
  apply (trackCases_blocked sample_Date_time). reflexivity.
Defined.


(** * Properties of version 0.4: detectChanges *)

Lemma detectChange_new oldData newData k :
  oldData !! k = None →
  detectChange oldData newData [] k =
  Ok [Change.mk k "NEW" (newData !! k) None None "New case added"].
Proof. intros Ho. unfold detectChange. by rewrite Ho. Qed.

Lemma detectChange_known oldData newData k o n :
  oldData !! k = Some o → newData !! k = Some n →
  detectChange oldData newData [] k =
  Ok ((if strict_neq (updatedAtTimestamp o) (updatedAtTimestamp n)
       then [Change.mk k "UPDATED" (Some n) (Some (updatedAtTimestamp o)) None
               ("Case updated from " +:+ template (updatedAtTimestamp o)
                  +:+ " to " +:+ template (updatedAtTimestamp n))]
       else []) ++
      (if bool_decide (length (or_empty (events o)) < length (or_empty (events n)))
       then [Change.mk k "NEW_EVENTS" (Some n) None
               (Some (take (length (or_empty (events n)) - length (or_empty (events o)))
                           (or_empty (events n))))
               (pretty (length (or_empty (events n)) - length (or_empty (events o)))
                  +:+ " new event(s) added")]
       else []))%list.
Proof.
  intros Ho Hn. unfold detectChange. rewrite Ho, Hn. simpl.
  case_bool_decide as Hlt.
  - destruct (events n) as [evs|] eqn:Hev; simpl in *; [|lia].
    by destruct (strict_neq _ _).
  - destruct (strict_neq _ _); simpl; by rewrite ?app_nil_r.
Qed.

Lemma detectChange_append oldData newData cs k :
  detectChange oldData newData cs k =
  match detectChange oldData newData [] k with
  | Ok add => Ok (cs ++ add)%list
  | Throw e => Throw e
  end.
Proof.
  unfold detectChange. destruct (oldData !! k) as [o|]; [|done].
  destruct (newData !! k) as [n|]; simpl; [|done].
  case_bool_decide.
  - destruct (events n); simpl; [|done].
    destruct (strict_neq _ _); simpl; by rewrite <- ?app_assoc.
  - destruct (strict_neq _ _); simpl; by rewrite ?app_nil_r.
Qed.

Lemma detectChange_total oldData newData k :
  is_Some (newData !! k) → ∃ add, detectChange oldData newData [] k = Ok add.
Proof.
  intros [n Hn]. destruct (oldData !! k) as [o|] eqn:Ho.
  - rewrite (detectChange_known _ _ _ _ _ Ho Hn). by eexists.
  - rewrite (detectChange_new _ _ _ Ho). by eexists.
Qed.

Section ChangesLoop.
Variables oldData newData : gmap string CaseRecord.

Let step (changes : result (list Change.t)) (caseNum : string) (_ : nat) :=
  cs ← changes; detectChange oldData newData cs caseNum.

Lemma changes_loop_Throw ks i e : forEach_from step i ks (Throw e) = Throw e.
Proof. revert i. induction ks as [|k ks IH]; intros i; simpl; [done|]. apply IH. Qed.

Lemma changes_loop_Ok ks i acc r :
  forEach_from step i ks (Ok acc) = Ok r →
  ∀ c, c ∈ r ↔
       c ∈ acc ∨ ∃ k add, k ∈ ks ∧ detectChange oldData newData [] k = Ok add ∧ c ∈ add.
Proof.
  revert i acc. induction ks as [|k0 ks IH]; intros i acc; simpl.
  - intros [= ->] c. split; [by left|]. intros [?|(k & add & Hk & _)]; [done|].
    by apply elem_of_nil in Hk.
  - rewrite detectChange_append.
    destruct (detectChange oldData newData [] k0) as [add0|e0] eqn:Hk0.
    + intros Hloop c. rewrite (IH _ _ Hloop c), elem_of_app. split.
      * intros [[Hc|Hc]|(k & add & Hk & Hadd & Hc)].
        -- by left.
        -- right. exists k0, add0. split; [by left|done].
        -- right. exists k, add. split; [by right|done].
      * intros [Hc|(k & add & Hk & Hadd & Hc)]; [by left; left|].
        apply elem_of_cons in Hk as [->|Hk].
        -- left. right. congruence.
        -- right. by exists k, add.
    + rewrite changes_loop_Throw. discriminate.
Qed.

Lemma changes_loop_total ks i acc :
  (∀ k, k ∈ ks → ∃ add, detectChange oldData newData [] k = Ok add) →
  ∃ r, forEach_from step i ks (Ok acc) = Ok r.
Proof.
  revert i acc. induction ks as [|k0 ks IH]; intros i acc Hall; simpl; [by eexists|].
  rewrite detectChange_append. destruct (Hall k0) as [add0 ->]; [by left|].
  apply IH. intros k Hk. apply Hall. by right.
Qed.

End ChangesLoop.

Lemma detectChanges_total oldData newData :
  ∃ changes, detectChanges oldData newData = Ok changes.
Proof.
  apply changes_loop_total. intros k Hk. apply detectChange_total.
  by apply elem_of_Object_keys.
Qed.

Lemma detectChanges_elem oldData newData changes c :
  detectChanges oldData newData = Ok changes →
  c ∈ changes ↔
  ∃ k add, is_Some (newData !! k) ∧ detectChange oldData newData [] k = Ok add ∧ c ∈ add.
Proof.
  intros Hd. rewrite (changes_loop_Ok _ _ _ _ _ _ Hd c). split.
  - intros [Hc|(k & add & Hk & Hadd & Hc)]; [by apply elem_of_nil in Hc|].
    exists k, add. split; [by apply elem_of_Object_keys|done].
  - intros (k & add & Hk & Hadd & Hc). right. exists k, add.
    split; [by apply elem_of_Object_keys|done].
Qed.

(** X26. [detectChanges] of version 0.4 never raises, whatever the two
    mappings hold (the events of the new record are read only once their
    count has been found positive); on two equal mappings it reports no
    change. *)
Theorem detectChanges_never_raises :
  (∀ oldData newData, ∃ changes, detectChanges oldData newData = Ok changes) ∧
  (∀ cases, detectChanges cases cases = Ok []).
Proof.
  split; [apply detectChanges_total|]. intros cases.
  destruct (detectChanges_total cases cases) as [changes Hd]. rewrite Hd. f_equal.
  destruct changes as [|c changes]; [done|]. exfalso.
  assert (Hc : c ∈ c :: changes) by (by left).
  apply (detectChanges_elem _ _ _ _ Hd) in Hc as (k & add & [n Hn] & Hadd & Hc).
  rewrite (detectChange_known _ _ _ _ _ Hn Hn) in Hadd. injection Hadd as <-.
  unfold strict_neq in Hc. rewrite bool_decide_false in Hc by (intros Hne; by apply Hne).
  rewrite bool_decide_false in Hc by lia. by apply elem_of_nil in Hc.
Qed.

(** X27. What [detectChanges] reports.  A case that the old mapping lacks
    gets one entry of type [NEW] and no other.  A case known to both gets an
    entry [UPDATED] exactly when [updatedAtTimestamp] differs, and an entry
    [NEW_EVENTS] exactly when the new record has more events than the old
    one; that entry lists the leading events of the new record, as many as
    the count has grown.  Every entry is about a case of the new mapping. *)
Theorem detectChanges_reports oldData newData :
  ∃ changes, detectChanges oldData newData = Ok changes ∧
    (∀ c, c ∈ changes → Change.data c = newData !! Change.caseNum c ∧
                         is_Some (newData !! Change.caseNum c)) ∧
    (∀ k n, newData !! k = Some n → oldData !! k = None →
       ∀ c, Change.caseNum c = k →
         (c ∈ changes ↔ c = Change.mk k "NEW" (Some n) None None "New case added")) ∧
    (∀ k o n, oldData !! k = Some o → newData !! k = Some n →
       ((∃ c, c ∈ changes ∧ Change.caseNum c = k ∧ Change.type c = "UPDATED") ↔
        updatedAtTimestamp o ≠ updatedAtTimestamp n) ∧
       ((∃ c, c ∈ changes ∧ Change.caseNum c = k ∧ Change.type c = "NEW_EVENTS") ↔
        length (or_empty (events o)) < length (or_empty (events n))) ∧
       (∀ c, c ∈ changes → Change.caseNum c = k →
          (Change.type c = "UPDATED" ∧
           Change.oldTimestamp c = Some (updatedAtTimestamp o)) ∨
          (Change.type c = "NEW_EVENTS" ∧
           Change.newEvents c =
             Some (take (length (or_empty (events n)) - length (or_empty (events o)))
                        (or_empty (events n)))))).
Proof.
  destruct (detectChanges_total oldData newData) as [changes Hd].
  exists changes. split; [done|].
  assert (Hkey : ∀ c k add, detectChange oldData newData [] k = Ok add →
                            is_Some (newData !! k) → c ∈ add →
                            Change.caseNum c = k ∧ Change.data c = newData !! k).
  { intros c k add Hadd [n Hn] Hc. destruct (oldData !! k) as [o|] eqn:Ho.
    - rewrite (detectChange_known _ _ _ _ _ Ho Hn) in Hadd. injection Hadd as <-.
      rewrite Hn. apply elem_of_app in Hc as [Hc|Hc].
      + destruct (strict_neq _ _); [|by apply elem_of_nil in Hc].
        by apply list_elem_of_singleton in Hc as ->.
      + case_bool_decide; [|by apply elem_of_nil in Hc].
        by apply list_elem_of_singleton in Hc as ->.
    - rewrite (detectChange_new _ _ _ Ho) in Hadd. injection Hadd as <-.
      by apply list_elem_of_singleton in Hc as ->. }
  assert (Hin : ∀ c k, is_Some (newData !! k) → Change.caseNum c = k →
                       c ∈ changes ↔
                       ∃ add, detectChange oldData newData [] k = Ok add ∧ c ∈ add).
  { intros c k Hk Hck. rewrite (detectChanges_elem _ _ _ _ Hd). split.
    - intros (k' & add & Hk' & Hadd & Hc).
      destruct (Hkey _ _ _ Hadd Hk' Hc) as [Hck' _].
      assert (k' = k) as -> by congruence. by exists add.
    - intros (add & Hadd & Hc). by exists k, add. }
  split; [|split].
  - intros c Hc. apply (detectChanges_elem _ _ _ _ Hd) in Hc as (k & add & Hk & Hadd & Hc).
    destruct (Hkey _ _ _ Hadd Hk Hc) as [-> ->]. done.
  - intros k n Hn Ho c Hck. rewrite (Hin c k) by (by rewrite ?Hn).
    rewrite (detectChange_new _ _ _ Ho), Hn. split.
    + intros (add & [= <-] & Hc). by apply list_elem_of_singleton in Hc.
    + intros ->. eexists. split; [done|]. by apply list_elem_of_singleton.
  - intros k o n Ho Hn.
    assert (Hk : is_Some (newData !! k)) by (by rewrite Hn).
    pose proof (detectChange_known _ _ _ _ _ Ho Hn) as Hadd.
    split; [|split].
    + split.
      * intros (c & Hc & Hck & Hty). apply (Hin c k Hk Hck) in Hc as (add & Hadd' & Hc).
        rewrite Hadd in Hadd'. injection Hadd' as <-.
        apply elem_of_app in Hc as [Hc|Hc].
        -- unfold strict_neq in Hc. case_bool_decide; [done|by apply elem_of_nil in Hc].
        -- case_bool_decide; [|by apply elem_of_nil in Hc].
           apply list_elem_of_singleton in Hc as ->. discriminate Hty.
      * intros Hne.
        exists (Change.mk k "UPDATED" (Some n) (Some (updatedAtTimestamp o)) None
                  ("Case updated from " +:+ template (updatedAtTimestamp o)
                     +:+ " to " +:+ template (updatedAtTimestamp n))).
        split; [|done]. apply (Hin _ k Hk); [done|]. eexists. split; [exact Hadd|].
        apply elem_of_app. left. unfold strict_neq. rewrite bool_decide_true by done.
        by apply list_elem_of_singleton.
    + split.
      * intros (c & Hc & Hck & Hty). apply (Hin c k Hk Hck) in Hc as (add & Hadd' & Hc).
        rewrite Hadd in Hadd'. injection Hadd' as <-.
        apply elem_of_app in Hc as [Hc|Hc].
        -- destruct (strict_neq _ _); [|by apply elem_of_nil in Hc].
           apply list_elem_of_singleton in Hc as ->. discriminate Hty.
        -- case_bool_decide; [done|by apply elem_of_nil in Hc].
      * intros Hlt.
        exists (Change.mk k "NEW_EVENTS" (Some n) None
                  (Some (take (length (or_empty (events n)) - length (or_empty (events o)))
                              (or_empty (events n))))
                  (pretty (length (or_empty (events n)) - length (or_empty (events o)))
                     +:+ " new event(s) added")).
        split; [|done]. apply (Hin _ k Hk); [done|]. eexists. split; [exact Hadd|].
        apply elem_of_app. right. rewrite bool_decide_true by done.
        by apply list_elem_of_singleton.
    + intros c Hc Hck. apply (Hin c k Hk Hck) in Hc as (add & Hadd' & Hc).
      rewrite Hadd in Hadd'. injection Hadd' as <-.
      apply elem_of_app in Hc as [Hc|Hc].
      * destruct (strict_neq _ _); [|by apply elem_of_nil in Hc].
        apply list_elem_of_singleton in Hc as ->. by left.
      * case_bool_decide; [|by apply elem_of_nil in Hc].
        apply list_elem_of_singleton in Hc as ->. by right.
Qed.

Lemma detectChanges_reports_witness :
  ∃ changes, detectChanges scenario_prior scenario_new = Ok changes ∧
    (∃ c, c ∈ changes ∧ Change.caseNum c = "A" ∧ Change.type c = "UPDATED") ∧
    (∃ c, c ∈ changes ∧ Change.caseNum c = "A" ∧ Change.type c = "NEW_EVENTS").
Proof.
  destruct (detectChanges_reports scenario_prior scenario_new)
    as (changes & Hd & _ & _ & Hknown).
  destruct (Hknown "A" _ _ eq_refl eq_refl) as ([_ Hupd] & [_ Hev] & _).
  exists changes. split; [exact Hd|]. split.
  - apply Hupd. discriminate.
  - apply Hev. simpl. lia.
Defined.

(** X28. The two versions agree when events are only added in front: if
    the events of the new record are fresh events followed by the events of
    the old record, and no fresh event has the key of an old one, then
    version 0.4 lists the fresh events under [NEW_EVENTS] and version 0.5
    marks exactly their indices. *)
Theorem versions_agree_on_prepended oldCases newCases :
  new_only_have_events oldCases newCases →
  ∃ changes h,
    detectChanges oldCases newCases = Ok changes ∧
    detectFieldHighlights oldCases newCases = Ok h ∧
    ∀ caseNum o n fresh,
      oldCases !! caseNum = Some o → newCases !! caseNum = Some n →
      fresh ≠ [] → or_empty (events n) = (fresh ++ or_empty (events o))%list →
      (∀ e, e ∈ fresh → eventKey e ∉ eventKey <$> or_empty (events o)) →
      (∃ c, c ∈ changes ∧ Change.caseNum c = caseNum ∧
            Change.type c = "NEW_EVENTS" ∧ Change.newEvents c = Some fresh) ∧
      (∃ a, h !! caseNum = Some a ∧ ∀ i, i ∈ newEventIndices a ↔ i < length fresh).
Proof.
  intros Hpre. destruct (detectChanges_total oldCases newCases) as [changes Hc].
  destruct (detect_total_events _ _ Hpre) as [h Hd].
  exists changes, h. split; [done|]. split; [done|].
  intros k o n fresh Ho Hn Hne Hsplit Hfresh. split.
  - assert (Hlen : length (or_empty (events o)) < length (or_empty (events n))).
    { rewrite Hsplit, length_app. destruct fresh; [done|]. simpl. lia. }
    assert (Htake : take (length (or_empty (events n)) - length (or_empty (events o)))
                         (or_empty (events n)) = fresh).
    { rewrite Hsplit, length_app.
      replace (length fresh + length (or_empty (events o)) - length (or_empty (events o)))
        with (length fresh) by lia.
      by rewrite take_app_length. }
    exists (Change.mk k "NEW_EVENTS" (Some n) None (Some fresh)
              (pretty (length (or_empty (events n)) - length (or_empty (events o)))
                 +:+ " new event(s) added")).
    split; [|done].
    apply (detectChanges_elem _ _ _ _ Hc). exists k. eexists.
    split; [by rewrite Hn|]. split; [by apply detectChange_known|].
    apply elem_of_app. right. rewrite bool_decide_true by done.
    rewrite Htake. by apply list_elem_of_singleton.
  - destruct (detect_Ok_known _ _ _ _ _ Hd Hn) as (a & Ha & Hh).
    destruct (highlightCase_known _ _ _ _ _ Ho Hn) as (a' & Ha' & _ & _ & Hix).
    assert (a = a') as -> by congruence. exists a'. split; [done|].
    intros i. rewrite Hix, Hsplit. split.
    + intros (e & He & Hk).
      destruct (decide (i < length fresh)) as [Hlt|Hge]; [done|].
      rewrite lookup_app_r in He by lia. exfalso. apply Hk.
      apply list_elem_of_fmap_2. by eapply list_elem_of_lookup_2.
    + intros Hi. destruct (lookup_lt_is_Some_2 fresh i Hi) as [e He]. exists e.
      split; [by rewrite lookup_app_l|]. apply Hfresh. by eapply list_elem_of_lookup_2.
Qed.

Lemma versions_agree_on_prepended_witness :
  ∃ changes h,
    detectChanges scenario_prior scenario_new = Ok changes ∧
    detectFieldHighlights scenario_prior scenario_new = Ok h ∧
    (∃ c, c ∈ changes ∧ Change.caseNum c = "A" ∧ Change.type c = "NEW_EVENTS" ∧
          Change.newEvents c = Some [sample_event "H008" "T2"]) ∧
    (∃ a, h !! "A" = Some a ∧ ∀ i, i ∈ newEventIndices a ↔ i < 1).
Proof.
  assert (Hpre : new_only_have_events scenario_prior scenario_new).
  { apply new_only_have_events_known. intros caseNum n Hn. unfold scenario_new in Hn.
    apply lookup_singleton_Some in Hn as [<- _]. by eexists. }
  destruct (versions_agree_on_prepended scenario_prior scenario_new Hpre)
    as (changes & h & Hc & Hd & Hagree).
  exists changes, h. split; [exact Hc|]. split; [exact Hd|].
  apply (Hagree "A" _ _ [sample_event "H008" "T2"] eq_refl eq_refl);
    [discriminate|reflexivity|].
  intros e He. apply list_elem_of_singleton in He as ->. simpl.
  intros Hin. apply list_elem_of_singleton in Hin. discriminate Hin.
Defined.

(** * Properties of version 0.4: fetchCaseData *)

Section ReconcilerV04Properties.
Variable Date_time : jsprim → option Z.

Lemma mapEvent_v04_inv r e :
  mapEvent_v04 r = Ok e →
  ∃ s, RawEvent.eventCode r = JString s ∧
       e = Event.mk (JString s)
             (JString (default "Unknown" (EVENT_CODES_v04 !! toUpperCase s)))
             (RawEvent.updatedAtTimestamp r).
Proof.
  unfold mapEvent_v04. destruct (RawEvent.eventCode r) as [| |b|s] eqn:Hc; simpl;
    try discriminate.
  intros [= <-]. by exists s.
Qed.

(** The two versions map a payload to events with the same keys. *)
Lemma mapM_versions raw mapped4 :
  mapM mapEvent_v04 raw = Ok mapped4 →
  ∃ mapped5, mapM mapEvent raw = Ok mapped5 ∧
             Forall2 (λ e5 e4, event_key e5 = event_key e4) mapped5 mapped4.
Proof.
  revert mapped4. induction raw as [|r raw IH]; intros mapped4; simpl.
  - intros [= <-]. exists []. split; [done|constructor].
  - destruct (mapEvent_v04 r) as [e4|] eqn:He4; simpl; [|discriminate].
    destruct (mapM mapEvent_v04 raw) as [k4|] eqn:Hk4; simpl; [|discriminate].
    intros [= <-]. destruct (IH _ eq_refl) as (k5 & Hk5 & Hall).
    destruct (mapEvent_v04_inv _ _ He4) as (s & Hs & ->).
    destruct (mapEvent_string r s Hs) as [e5 He5]. rewrite He5. simpl.
    rewrite Hk5. simpl. eexists. split; [done|]. constructor; [|done].
    destruct (mapEvent_Ok _ _ He5) as [-> _]. unfold raw_key, event_key. simpl.
    by rewrite Hs.
Qed.

Lemma compareEvents_keys a a' b b' :
  event_key a = event_key a' → event_key b = event_key b' →
  compareEvents Date_time a b = compareEvents Date_time a' b'.
Proof.
  unfold event_key, compareEvents. intros [= _ Ha] [= _ Hb]. by rewrite Ha, Hb.
Qed.

Lemma sorted_insert_keys x x' l l' :
  event_key x = event_key x' →
  Forall2 (λ e e', event_key e = event_key e') l l' →
  Forall2 (λ e e', event_key e = event_key e')
          (sorted_insert (compareEvents Date_time) x l)
          (sorted_insert (compareEvents Date_time) x' l').
Proof.
  intros Hx Hl. induction Hl as [|y y' l l' Hy Hl IH]; simpl.
  - by repeat constructor.
  - unfold SortCompare. rewrite (compareEvents_keys _ _ _ _ Hx Hy).
    case_bool_decide; by repeat constructor.
Qed.

Lemma Array_sort_keys l l' :
  Forall2 (λ e e', event_key e = event_key e') l l' →
  Forall2 (λ e e', event_key e = event_key e')
          (Array_sort (compareEvents Date_time) l)
          (Array_sort (compareEvents Date_time) l').
Proof.
  induction 1 as [|x x' l l' Hx Hl IH]; simpl; [constructor|].
  by apply sorted_insert_keys.
Qed.

Lemma Forall2_keys_fmap (l l' : list Event.t) :
  Forall2 (λ e e', event_key e = event_key e') l l' →
  event_key <$> l = event_key <$> l'.
Proof. induction 1 as [|x x' l l' Hx Hl IH]; [done|]. rewrite !fmap_cons. by f_equal. Qed.

Lemma event_key_eventKey e e' : event_key e = event_key e' → eventKey e = eventKey e'.
Proof. unfold event_key, eventKey. by intros [= -> ->]. Qed.

Lemma fetchCaseData_v04_inv caseNum statusResponse docResponse now rec4 :
  fetchCaseData_v04 Date_time caseNum statusResponse docResponse now = Some rec4 →
  ∃ statusData documentsData mapped4 first,
    statusResponse = Ok statusData ∧ docResponse = Ok documentsData ∧
    mapM mapEvent_v04 (raw_events (Ok statusData)) = Ok mapped4 ∧
    head (Array_sort (compareEvents Date_time) mapped4) = Some first ∧
    events rec4 = Some (Array_sort (compareEvents Date_time) mapped4) ∧
    currentActionCode rec4 = Event.eventCode first ∧
    updatedAt rec4 = JUndefined ∧
    updatedAtTimestamp rec4 =
      CaseInfo.updatedAtTimestamp (default CaseInfo.empty (StatusData.data statusData)).
Proof.
  unfold fetchCaseData_v04.
  destruct statusResponse as [statusData|]; simpl; [|discriminate].
  destruct docResponse as [documentsData|]; simpl; [|discriminate].
  match goal with |- context [mapM mapEvent_v04 ?l] =>
    destruct (mapM mapEvent_v04 l) as [mapped4|] eqn:Hm end; simpl; [|discriminate].
  destruct (head (Array_sort (compareEvents Date_time) mapped4)) as [first|] eqn:Hhead;
    simpl; [|discriminate].
  intros [= <-]. exists statusData, documentsData, mapped4, first. done.
Qed.

(** X29. [fetchCaseData] of version 0.4 returns [null] for a payload
    without events, whatever else the payload holds: the first sorted event
    is read without a guard. *)
Theorem fetchCaseData_v04_needs_events caseNumber statusResponse docResponse now :
  raw_events statusResponse = [] →
  fetchCaseData_v04 Date_time caseNumber statusResponse docResponse now = None.
Proof.
  intros Hraw. unfold fetchCaseData_v04.
  destruct statusResponse as [statusData|]; simpl; [|done].
  destruct docResponse as [documentsData|]; simpl; [|done].
  simpl in Hraw. by rewrite Hraw.
Qed.

(** X30. A case stored by version 0.4 and fetched again by version 0.5 with
    the same payload: version 0.5 builds a record with the same events in the
    same order (codes and timestamps) and the same current action code, and
    its first [detectFieldHighlights] against the stored record marks no
    event; it flags [updatedAtChanged] exactly when the payload carries an
    [updatedAt], which the stored record lacks. *)
Theorem first_pass_after_upgrade caseNum statusResponse docResponse now4 now5 rec4
    oldCases newCases :
  fetchCaseData_v04 Date_time caseNum statusResponse docResponse now4 = Some rec4 →
  oldCases !! caseNum = Some rec4 →
  newCases !! caseNum = fetchCaseData Date_time caseNum statusResponse docResponse now5 →
  new_only_have_events oldCases newCases →
  ∃ rec5 h a,
    fetchCaseData Date_time caseNum statusResponse docResponse now5 = Some rec5 ∧
    event_key <$> or_empty (events rec5) = event_key <$> or_empty (events rec4) ∧
    currentActionCode rec5 = currentActionCode rec4 ∧
    detectFieldHighlights oldCases newCases = Ok h ∧ h !! caseNum = Some a ∧
    isNew a = false ∧ newEventIndices a = ∅ ∧
    (updatedAtChanged a = true ↔ raw_updatedAt statusResponse ≠ JUndefined).
Proof.
  intros Hf4 Ho Hn Hpre.
  destruct (fetchCaseData_v04_inv _ _ _ _ _ Hf4)
    as (sd & dd & mapped4 & first & -> & -> & Hm4 & Hhead & Hev4 & Hcode4 & Hupd4 & Hts).
  destruct (mapM_versions _ _ Hm4) as (mapped5 & Hm5 & Hkeys).
  pose proof (Array_sort_keys _ _ Hkeys) as Hsorted.
  assert (∃ rec5,
    fetchCaseData Date_time caseNum (Ok sd) (Ok dd) now5 = Some rec5 ∧
    events rec5 = Some (Array_sort (compareEvents Date_time) mapped5) ∧
    currentActionCode rec5 =
      from_option Event.eventCode JUndefined
        (head (Array_sort (compareEvents Date_time) mapped5)) ∧
    updatedAt rec5 = raw_updatedAt (Ok sd) ∧
    updatedAtTimestamp rec5 = updatedAtTimestamp rec4)
    as (rec5 & Hf5 & Hev5 & Hcode5 & Hupd5 & Hts5).
  { rewrite Hts. unfold fetchCaseData, raw_updatedAt. simpl. simpl in Hm5.
    rewrite Hm5. simpl. eexists. split; [reflexivity|]. done. }
  rewrite Hf5 in Hn.
  destruct (detect_total_events _ _ Hpre) as [h Hd].
  destruct (detect_Ok_known _ _ _ _ _ Hd Hn) as (a & Ha & Hh).
  destruct (highlightCase_known _ _ _ _ _ Ho Hn) as (a' & Ha' & Hnew & Hch & Hix).
  assert (a = a') as -> by congruence.
  exists rec5, h, a'. split; [done|].
  assert (Hk : event_key <$> or_empty (events rec5) = event_key <$> or_empty (events rec4)).
  { rewrite Hev5, Hev4. simpl. apply Forall2_keys_fmap. by apply Hsorted. }
  split; [done|]. split.
  { rewrite Hcode5, Hcode4. destruct Hsorted as [|e5 e4 l5 l4 He _]; [done|].
    simpl in *. injection Hhead as <-. unfold event_key in He. by injection He. }
  split; [done|]. split; [done|]. split; [done|]. split.
  - apply set_eq. intros i. rewrite Hix. split; [|intros Hi; by apply not_elem_of_empty in Hi].
    intros (e & He & Hnotin). exfalso. apply Hnotin.
    rewrite Hev5, Hev4 in *. simpl in *.
    destruct (Forall2_lookup_l _ _ _ _ _ Hsorted He) as (e4 & He4 & Hee).
    apply list_elem_of_fmap. exists e4. split; [by apply event_key_eventKey|].
    by eapply list_elem_of_lookup_2.
  - rewrite Hch, Hts5, Hupd5, Hupd4. unfold strict_neq.
    rewrite (bool_decide_false (_ ≠ _)) by (intros Hne; by apply Hne). simpl.
    rewrite bool_decide_eq_true. split; intros Hne Heq; by apply Hne.
Qed.

End ReconcilerV04Properties.

Lemma fetchCaseData_v04_needs_events_witness :
  fetchCaseData_v04 sample_Date_time "IOE0912345678"
    (Ok (StatusData.mk None)) sample_documents "2024-03-03T09:00:00.000Z" = None.
Proof.
  apply (fetchCaseData_v04_needs_events sample_Date_time). reflexivity.
Defined.

Lemma first_pass_after_upgrade_witness :
  ∃ rec4 rec5 h a,
    fetchCaseData_v04 sample_Date_time "IOE0912345678" sample_status sample_documents
      "2024-03-01T09:00:00.000Z" = Some rec4 ∧
    fetchCaseData sample_Date_time "IOE0912345678" sample_status sample_documents
      "2024-03-03T09:00:00.000Z" = Some rec5 ∧
    detectFieldHighlights {[ "IOE0912345678" := rec4 ]} {[ "IOE0912345678" := rec5 ]}
      = Ok h ∧
    h !! "IOE0912345678" = Some a ∧
    newEventIndices a = ∅ ∧ updatedAtChanged a = true.
Proof.
  destruct (fetchCaseData_v04 sample_Date_time "IOE0912345678" sample_status
              sample_documents "2024-03-01T09:00:00.000Z") as [rec4|] eqn:Hf4;
    [|by vm_compute in Hf4].
  destruct (fetchCaseData sample_Date_time "IOE0912345678" sample_status
              sample_documents "2024-03-03T09:00:00.000Z") as [rec5|] eqn:Hf5;
    [|by vm_compute in Hf5].
  destruct (first_pass_after_upgrade sample_Date_time "IOE0912345678" sample_status
              sample_documents "2024-03-01T09:00:00.000Z" "2024-03-03T09:00:00.000Z"
              rec4 {[ "IOE0912345678" := rec4 ]} {[ "IOE0912345678" := rec5 ]} Hf4)
    as (rec5' & h & a & Hf5' & _ & _ & Hd & Ha & _ & Hix & Hupd).
  - apply lookup_singleton_eq.
  - rewrite Hf5. apply lookup_singleton_eq.
  - apply new_only_have_events_known. intros k n Hn.
    apply lookup_singleton_Some in Hn as [<- _]. rewrite lookup_singleton_eq. by eexists.
  - exists rec4, rec5, h, a. split; [reflexivity|]. split; [reflexivity|].
    split; [exact Hd|]. split; [exact Ha|]. split; [exact Hix|].
    apply Hupd. discriminate.
Defined.
